(** * qutebrowser.keyinput.keyparser: command and passthrough key parsers

    A shallow embedding of [CommandKeyParser.execute],
    [PassthroughKeyParser.handle] and [PassthroughKeyParser.clear_keystring]
    from [qutebrowser/keyinput/keyparser.py], and the properties of the
    passthrough replay logic.

    The Python methods mutate the parser object, read the focused window and
    post events to the Qt event queue; they are written here in a small
    state-and-exception monad over a [World] that holds exactly those pieces.
    The inherited chain matcher ([basekeyparser.BaseKeyParser]), the command
    runner and [keyutils] are collaborators that live in other files: the
    matcher and the runner are taken as interfaces, so the theorems hold for
    all of their implementations; the theorems that depend on when the
    matcher resets its chain name that as a hypothesis.  A real call of the
    inherited [handle] that ends in ExactMatch runs the bound command
    through [execute], so [handle] may show a message, see events posted by
    the command, or let the command's exception out. *)

From Stdlib Require Import ZArith List String Bool Lia.
Import ListNotations.

Set Implicit Arguments.

(** ** Qt values *)

(** [QKeySequence.SequenceMatch]. *)
Inductive SequenceMatch : Type :=
  | NoMatch
  | PartialMatch
  | ExactMatch.

Definition SequenceMatch_eqb (a b : SequenceMatch) : bool :=
  match a, b with
  | NoMatch, NoMatch => true
  | PartialMatch, PartialMatch => true
  | ExactMatch, ExactMatch => true
  | _, _ => false
  end.

(** The two [QEvent.Type] members the parser synthesizes. *)
Inductive QEventType : Type :=
  | KeyPress
  | KeyRelease.

(** A [QKeyEvent]: its type, [key()] and [modifiers()]. *)
Record QKeyEvent : Type := mkQKeyEvent {
  ev_type : QEventType;
  ev_key : Z;
  ev_modifiers : Z
}.

(** A window handle, as returned by [QApplication.focusWindow()]. *)
Definition QWindow : Type := nat.

(** ** keyutils *)

Module keyutils.

(** Modelled from the spec: [keyutils.KeyInfo] is not part of the sources.
    One key of a chain: the key code with its modifiers. *)
Record KeyInfo : Type := mkKeyInfo {
  key : Z;
  modifiers : Z
}.

Definition KeyInfo_eqb (a b : KeyInfo) : bool :=
  (key a =? key b)%Z && (modifiers a =? modifiers b)%Z.

(** Modelled from the spec: [keyutils.KeySequence] is not part of the
    sources.  "An ordered, appendable sequence of KeyEvents representing
    keys typed so far in the current chain"; the empty list is
    [KeySequence()]. *)
Definition KeySequence : Type := list KeyInfo.

Definition from_event (e : QKeyEvent) : KeyInfo :=
  mkKeyInfo (ev_key e) (ev_modifiers e).

(** Modelled from the spec: [KeySequence.append_event] is not part of the
    sources.  It returns a new sequence, the receiver followed by the
    event's key; the receiver is left as it is. *)
Definition append_event (s : KeySequence) (e : QKeyEvent) : KeySequence :=
  s ++ [from_event e].

(** Modelled from the spec: [KeyInfo.to_event] is not part of the sources.
    It synthesizes an event of the given type for the key. *)
Definition to_event (k : KeyInfo) (typ : QEventType) : QKeyEvent :=
  mkQKeyEvent typ (key k) (modifiers k).

End keyutils.
Import keyutils.

(** ** Exceptions *)

(** What a call can raise: [cmdexc.Error] (or one of its subclasses), with
    the text [str(e)] gives, or an exception of any other class. *)
Inductive exception : Type :=
  | CmdExcError (text : string)
  | OtherException (cls : string) (text : string).

Definition str (e : exception) : string :=
  match e with
  | CmdExcError text => text
  | OtherException _ text => text
  end.

Inductive Outcome (A : Type) : Type :=
  | Returned (a : A)
  | Raised (e : exception).
Arguments Returned {A} a.
Arguments Raised {A} e.

(** ** The inherited chain matcher *)

(** What one call of the inherited [handle] does, seen from the subclass:
    its verdict, whether it called [self.clear_keystring()] on the way (the
    call is dispatched to the override below), and the matcher's own state
    when it returns. *)
Record BaseResult (B : Type) : Type := mkBaseResult {
  br_match : SequenceMatch;
  br_cleared : bool;
  br_state : B
}.

(** [basekeyparser.BaseKeyParser], as far as this file calls it: [handle]
    and [clear_keystring], over the matcher's own fields [B].  A real call
    of the inherited [handle] whose verdict is ExactMatch runs the bound
    command through [self.execute] ("dry_run: Don't actually execute
    anything"); [base_binding] is that command with its count, if the chain
    the event completes has one. *)
Class BaseKeyParser (B : Type) : Type := {
  base_handle : B -> QKeyEvent -> bool -> BaseResult B;
  base_binding : B -> QKeyEvent -> option (string * option Z);
  base_clear_keystring : B -> B
}.

(** Modelled from the spec: the contract of the inherited [handle], which is
    not part of the sources.  A dry run is "a non-mutating probe call": it
    does not reset the chain. *)
Definition base_dry_run_pure {B} `{BaseKeyParser B} : Prop :=
  forall (b : B) (e : QKeyEvent), br_cleared (base_handle b e true) = false.

(** Modelled from the spec: the contract of the inherited [handle], which is
    not part of the sources.  The chain is "reset to empty on chain
    completion, mismatch-with-replay, or explicit clear", and
    [clear_keystring] is called "whenever the inherited matcher resets its
    own internal buffer": a real call whose verdict is NoMatch resets the
    chain through [clear_keystring]. *)
Definition base_resets_on_no_match {B} `{BaseKeyParser B} : Prop :=
  forall (b : B) (e : QKeyEvent),
    br_match (base_handle b e false) = NoMatch ->
    br_cleared (base_handle b e false) = true.

(** ** State *)

Section State.

Context {B : Type}.

(** The fields of a [PassthroughKeyParser]: the inherited matcher's fields,
    [_orig_sequence] and [_ignore_next_key]. *)
Record Parser : Type := mkParser {
  base : B;
  orig_sequence : KeySequence;
  ignore_next_key : bool
}.

(** What the methods read and write: the parser object, the window that
    has focus, the events posted with [QApplication.postEvent] (oldest
    first) and the calls of [message.error] (oldest first), each with its
    text and its [stack]. *)
Record World : Type := mkWorld {
  self : Parser;
  focus : option QWindow;
  posted : list (QWindow * QKeyEvent);
  errors : list (string * string)
}.

(** Computations that change the world and return or raise. *)
Definition M (A : Type) : Type := World -> Outcome A * World.

Definition ret {A} (a : A) : M A := fun w => (Returned a, w).

Definition bind {A C} (c : M A) (k : A -> M C) : M C :=
  fun w =>
    match c w with
    | (Returned a, w') => k a w'
    | (Raised e, w') => (Raised e, w')
    end.

(** [try: c  except <classes h answers to> as e: h e]. *)
Definition try_except {A} (c : M A) (h : exception -> option (M A)) : M A :=
  fun w =>
    match c w with
    | (Returned a, w') => (Returned a, w')
    | (Raised e, w') =>
        match h e with
        | Some k => k w'
        | None => (Raised e, w')
        end
    end.

Definition get_self : M Parser := fun w => (Returned (self w), w).

Definition set_self (p : Parser) : M unit :=
  fun w => (Returned tt, mkWorld p (focus w) (posted w) (errors w)).

Definition set_orig_sequence (s : KeySequence) : M unit :=
  bind get_self (fun p =>
  set_self (mkParser (base p) s (ignore_next_key p))).

Definition set_ignore_next_key (f : bool) : M unit :=
  bind get_self (fun p =>
  set_self (mkParser (base p) (orig_sequence p) f)).

Definition set_base (b : B) : M unit :=
  bind get_self (fun p =>
  set_self (mkParser b (orig_sequence p) (ignore_next_key p))).

(** [QApplication.focusWindow()]. *)
Definition focusWindow : M (option QWindow) :=
  fun w => (Returned (focus w), w).

(** [QApplication.postEvent(window, event)]. *)
Definition postEvent (window : QWindow) (event : QKeyEvent) : M unit :=
  fun w =>
    (Returned tt,
     mkWorld (self w) (focus w) (posted w ++ [(window, event)]) (errors w)).

(** Modelled from the spec: [message.error] is not part of the sources.
    A "fire-and-forget user notification" with the text and the
    diagnostic. *)
Definition message_error (text stack : string) : M unit :=
  fun w =>
    (Returned tt,
     mkWorld (self w) (focus w) (posted w) (errors w ++ [(text, stack)])).

(** [for x in l: body x]. *)
Fixpoint for_each {A} (l : list A) (body : A -> M unit) : M unit :=
  match l with
  | [] => ret tt
  | x :: l' => bind (body x) (fun _ => for_each l' body)
  end.

End State.

Arguments Parser B : clear implicits.
Arguments World B : clear implicits.
Arguments M B A : clear implicits.

Declare Scope py_scope.
Delimit Scope py_scope with py.
Notation "x <- c ;; k" := (bind c (fun x => k))
  (at level 61, c at next level, right associativity) : py_scope.
Notation "c ;; k" := (bind c (fun _ => k))
  (at level 61, right associativity) : py_scope.
Open Scope py_scope.

(** ** The command runner of a parser *)

(** The part of the world outside the parser object: the focused window,
    the event queue and the messages. *)
Record Env : Type := mkEnv {
  env_focus : option QWindow;
  env_posted : list (QWindow * QKeyEvent);
  env_errors : list (string * string)
}.

(** The runner a parser holds in [_commandrunner], with
    [traceback.format_exc()].  A command bound to a key chain works on the
    application: it may change the focus, post events, show messages, and
    return or raise; the fields of the parser that dispatched it are not its
    to write. *)
Class CommandRunner : Type := {
  runner_run : string -> option Z -> Env -> Outcome unit * Env;
  runner_format_exc : exception -> string
}.

Section Lift.

Context {B : Type}.

Definition env_of (w : World B) : Env :=
  mkEnv (focus w) (posted w) (errors w).

Definition with_env (w : World B) (v : Env) : World B :=
  mkWorld (self w) (env_focus v) (env_posted v) (env_errors v).

(** A runner of commands as a computation on the world of a parser. *)
Definition lift_runner
    (run : string -> option Z -> Env -> Outcome unit * Env)
  : string -> option Z -> M B unit :=
  fun cmdstr count w =>
    let (o, v) := run cmdstr count (env_of w) in
    (o, with_env w v).

End Lift.

(** ** The parsers' methods *)

Section Execute.

Context {B : Type}.

(** [self._commandrunner.run]: it may change the world in any way, and
    return or raise. *)
Variable commandrunner_run : string -> option Z -> M B unit.

(** [traceback.format_exc()] inside the handler of the given exception. *)
Variable format_exc : exception -> string.

(** [CommandKeyParser.execute]. *)
Definition execute (cmdstr : string) (count : option Z) : M B unit :=
  try_except (commandrunner_run cmdstr count)
    (fun e =>
       match e with
       | CmdExcError _ => Some (message_error (str e) (format_exc e))
       | OtherException _ _ => None
       end).

End Execute.

Section Methods.

Context {B : Type} `{BaseKeyParser B} `{CommandRunner}.

(** [keyutils.is_modifier_key]: whether a key code is a pure modifier. *)
Variable is_modifier_key : Z -> bool.

(** [if self._orig_sequence: self._orig_sequence = keyutils.KeySequence()] *)
Definition reset_orig_sequence : M B unit :=
  p <- get_self ;;
  match orig_sequence p with
  | [] => ret tt
  | _ :: _ => set_orig_sequence []
  end.

(** [super().clear_keystring()] *)
Definition super_clear_keystring : M B unit :=
  p <- get_self ;;
  set_base (base_clear_keystring (base p)).

(** [PassthroughKeyParser.clear_keystring]. *)
Definition clear_keystring : M B unit :=
  reset_orig_sequence ;;
  super_clear_keystring.

(** [self.execute(binding, count)] as the inherited [handle] calls it on
    a real ExactMatch: [CommandKeyParser.execute] above, on this parser's
    runner. *)
Definition execute_binding (binding : option (string * option Z))
  : M B unit :=
  match binding with
  | Some (cmdstr, count) =>
      execute (lift_runner runner_run) runner_format_exc cmdstr count
  | None => ret tt
  end.

(** [super().handle(e, dry_run=dry_run)]: the inherited matcher runs on
    this object.  Where it calls [self.clear_keystring()], the override
    above runs, so the original sequence is reset with the chain; on a real
    ExactMatch it then runs the bound command through [self.execute], whose
    exception, if it lets one out, ends the call. *)
Definition super_handle (e : QKeyEvent) (dry_run : bool) : M B SequenceMatch :=
  p <- get_self ;;
  let r := base_handle (base p) e dry_run in
  (if br_cleared r then reset_orig_sequence else ret tt) ;;
  set_base (br_state r) ;;
  (if negb dry_run && SequenceMatch_eqb (br_match r) ExactMatch
   then execute_binding (base_binding (base p) e)
   else ret tt) ;;
  ret (br_match r).

(** The body of the replay loop. *)
Definition replay_key (window : QWindow) (keyinfo : KeyInfo) : M B unit :=
  let press_event := to_event keyinfo KeyPress in
  let release_event := to_event keyinfo KeyRelease in
  postEvent window press_event ;;
  postEvent window release_event.

(** [PassthroughKeyParser.handle]. *)
Definition handle (e : QKeyEvent) (dry_run : bool) : M B SequenceMatch :=
  p <- get_self ;;
  if is_modifier_key (ev_key e) || ignore_next_key p then
    set_ignore_next_key (ignore_next_key p && dry_run) ;;
    ret NoMatch
  else
    let orig_sequence := append_event (orig_sequence p) e in
    match_ <- super_handle e dry_run ;;
    (if negb dry_run && SequenceMatch_eqb match_ PartialMatch
     then set_orig_sequence orig_sequence
     else ret tt) ;;
    if dry_run
       || (List.length orig_sequence =? 1)%nat
       || negb (SequenceMatch_eqb match_ NoMatch)
    then ret match_
    else
      window <- focusWindow ;;
      match window with
      | None => ret match_
      | Some window =>
          set_ignore_next_key true ;;
          for_each orig_sequence (replay_key window) ;;
          ret ExactMatch
      end.

(** One call of [handle] as the event filter makes it: the event, the
    [dry_run] argument, and the window that has focus at that time. *)
Record Call : Type := mkCall {
  c_event : QKeyEvent;
  c_dry_run : bool;
  c_focus : option QWindow
}.

Definition with_focus (f : option QWindow) (w : World B) : World B :=
  mkWorld (self w) f (posted w) (errors w).

(** The world after a run of calls, one after the other. *)
Fixpoint handle_calls (cs : list Call) (w : World B) : World B :=
  match cs with
  | [] => w
  | c :: cs' =>
      handle_calls cs'
        (snd (handle (c_event c) (c_dry_run c) (with_focus (c_focus c) w)))
  end.

End Methods.

(** ** A chain matcher over a table of bindings *)

Module ChainMatcher.

(** Modelled from the spec: the inherited chain matcher is not part of the
    sources.  The matcher's fields: the bound chains with their commands
    and the chain typed so far. *)
Record state : Type := mkState {
  bindings : list (KeySequence * string);
  sequence : KeySequence
}.

Fixpoint is_prefix (s t : KeySequence) : bool :=
  match s, t with
  | [], _ => true
  | _ :: _, [] => false
  | a :: s', b :: t' => KeyInfo_eqb a b && is_prefix s' t'
  end.

Definition sequence_eqb (s t : KeySequence) : bool :=
  is_prefix s t && is_prefix t s.

(** The verdict on a chain: a bound chain, the beginning of one, or
    neither. *)
Definition match_key (bs : list (KeySequence * string)) (s : KeySequence)
  : SequenceMatch :=
  if existsb (fun b => sequence_eqb s (fst b)) bs then ExactMatch
  else if existsb (fun b => is_prefix s (fst b)) bs then PartialMatch
  else NoMatch.

(** Modelled from the spec: the inherited [handle] is not part of the
    sources.  A dry run only classifies; a real call keeps a partial chain
    and resets a completed or mismatched one through [clear_keystring]. *)
Definition handle (b : state) (e : QKeyEvent) (dry_run : bool)
  : BaseResult state :=
  let s := append_event (sequence b) e in
  let m := match_key (bindings b) s in
  if dry_run then mkBaseResult m false b
  else
    match m with
    | PartialMatch => mkBaseResult m false (mkState (bindings b) s)
    | _ => mkBaseResult m true (mkState (bindings b) [])
    end.

(** The command bound to the chain the event completes, without a count. *)
Definition binding (b : state) (e : QKeyEvent)
  : option (string * option Z) :=
  match
    find (fun c => sequence_eqb (append_event (sequence b) e) (fst c))
      (bindings b)
  with
  | Some c => Some (snd c, None)
  | None => None
  end.

Definition clear_keystring (b : state) : state :=
  mkState (bindings b) [].

#[global] Instance parser : BaseKeyParser state := {
  base_handle := handle;
  base_binding := binding;
  base_clear_keystring := clear_keystring
}.

End ChainMatcher.

(** ** Concrete keys, runner and worlds *)

Module Sample.

Definition Key_J : Z := 0x4a.
Definition Key_K : Z := 0x4b.
Definition Key_Shift : Z := 0x01000020.
Definition Key_Control : Z := 0x01000021.
Definition Key_Meta : Z := 0x01000022.
Definition Key_Alt : Z := 0x01000023.
Definition NoModifier : Z := 0.

(** Modelled from the spec: [keyutils.is_modifier_key] is not part of the
    sources.  The pure modifier keys of Qt. *)
Definition is_modifier_key (k : Z) : bool :=
  existsb (Z.eqb k) [Key_Shift; Key_Control; Key_Meta; Key_Alt].

Definition press (k : Z) : QKeyEvent := mkQKeyEvent KeyPress k NoModifier.
Definition release (k : Z) : QKeyEvent := mkQKeyEvent KeyRelease k NoModifier.

Definition info (k : Z) : KeyInfo := mkKeyInfo k NoModifier.

(** Insert mode with the single chain "jj" bound. *)
Definition jj_bound : ChainMatcher.state :=
  ChainMatcher.mkState [([info Key_J; info Key_J], "leave-mode"%string)] [].

Definition window : QWindow := 7%nat.

Definition format_exc (e : exception) : string :=
  ("Traceback (most recent call last): " ++ str e)%string.

(** The commands of the application: "leave-mode" does its work elsewhere,
    "fake-key" posts a press of "k" to the focused window, "fail" is
    rejected with a command error, and anything else breaks the runner. *)
Definition command_run (cmdstr : string) (count : option Z) (v : Env)
  : Outcome unit * Env :=
  if String.eqb cmdstr "leave-mode" then (Returned tt, v)
  else if String.eqb cmdstr "fake-key" then
    match env_focus v with
    | Some window' =>
        (Returned tt,
         mkEnv (env_focus v) (env_posted v ++ [(window', press Key_K)])
           (env_errors v))
    | None => (Returned tt, v)
    end
  else if String.eqb cmdstr "fail" then
    (Raised (CmdExcError "fail: no such command"), v)
  else (Raised (OtherException "RuntimeError" "runner broke"), v).

#[export] Instance runner : CommandRunner := {
  runner_run := command_run;
  runner_format_exc := format_exc
}.

(** A fresh parser: empty sequences, flag unset. *)
Definition fresh (f : option QWindow) : World ChainMatcher.state :=
  mkWorld (mkParser jj_bound [] false) f [] [].

(** The parser after a real "j": the chain is partial. *)
Definition after_j (f : option QWindow) : World ChainMatcher.state :=
  snd (handle is_modifier_key (press Key_J) false (fresh f)).

(** The parser after a real "j" then "k" with a focused window. *)
Definition after_jk : World ChainMatcher.state :=
  snd (handle is_modifier_key (press Key_K) false (after_j (Some window))).

(** A runner that knows one command, rejects "fail" with a command error
    and breaks on anything else. *)
Definition run (cmdstr : string) (count : option Z) : M ChainMatcher.state unit :=
  if String.eqb cmdstr "leave-mode" then ret tt
  else if String.eqb cmdstr "fail" then
    fun w => (Raised (CmdExcError "fail: no such command"), w)
  else
    fun w => (Raised (OtherException "RuntimeError" "runner broke"), w).

End Sample.

(** ** What a call leaves behind *)

(** The events the replay loop posts to [window] for a sequence: for each
    key, in order, its press and then its release. *)
Definition replayed (window : QWindow) (s : KeySequence)
  : list (QWindow * QKeyEvent) :=
  flat_map
    (fun keyinfo =>
       [(window, to_event keyinfo KeyPress);
        (window, to_event keyinfo KeyRelease)])
    s.

(** The original sequence after the inherited matcher has run and the
    partial chain, if any, has been committed. *)
Definition committed {B} (before scratch : KeySequence) (dry_run : bool)
    (r : BaseResult B) : KeySequence :=
  if negb dry_run && SequenceMatch_eqb (br_match r) PartialMatch then scratch
  else if br_cleared r then []
  else before.

Definition returns_early {B} (scratch : KeySequence) (dry_run : bool)
    (r : BaseResult B) : bool :=
  dry_run
  || (List.length scratch =? 1)%nat
  || negb (SequenceMatch_eqb (br_match r) NoMatch).

(** The command the inherited [handle] runs in a call, if any: the binding
    of the completed chain, on a real ExactMatch. *)
Definition bound_command {B} `{BaseKeyParser B} (b : B) (e : QKeyEvent)
    (dry_run : bool) : option (string * option Z) :=
  if negb dry_run
     && SequenceMatch_eqb (br_match (base_handle b e dry_run)) ExactMatch
  then base_binding b e
  else None.

(** ** Construction and runs of method calls *)

Section Construction.

Context {B : Type}.

(** The inherited constructors, [BaseKeyParser.__init__] called through
    [CommandKeyParser.__init__]: the matcher's fields for a window. *)
Variable base_init : nat -> B.

(** [self._read_config(mode)], inherited: it loads the bindings of the mode
    into the matcher. *)
Variable read_config : string -> B -> B.

(** [PassthroughKeyParser.__init__] (the Qt [parent] only goes to the
    inherited constructor).  The fields the other methods use come first;
    [_mode], which only [__repr__] reads, is returned beside them. *)
Definition init (win_id : nat) (mode : string) : Parser B * string :=
  let b := base_init win_id in
  let b := read_config mode b in
  (mkParser b [] false, mode).

End Construction.

Section Runs.

Context {B : Type} `{BaseKeyParser B} `{CommandRunner}.
Variable is_modifier_key : Z -> bool.

(** What the owner of a parser does with it: it hands it a key event, or
    it clears the key string (on a mode change or a timeout). *)
Inductive Op : Type :=
  | OpHandle (c : Call)
  | OpClearKeystring.

(** The world after a run of operations, one after the other. *)
Fixpoint run_ops (ops : list Op) (w : World B) : World B :=
  match ops with
  | [] => w
  | OpHandle c :: ops' =>
      run_ops ops'
        (snd (handle is_modifier_key (c_event c) (c_dry_run c)
                (with_focus (c_focus c) w)))
  | OpClearKeystring :: ops' =>
      run_ops ops' (snd (clear_keystring w))
  end.

End Runs.

(** The number of real (not dry-run) calls of [handle] in a run. *)
Fixpoint real_handles (ops : list Op) : nat :=
  match ops with
  | [] => 0
  | OpHandle c :: ops' =>
      (if c_dry_run c then 0 else 1) + real_handles ops'
  | OpClearKeystring :: ops' => real_handles ops'
  end.

(** Whether an outcome is a raised [cmdexc.Error]. *)
Definition raises_command_error {A} (o : Outcome A) : bool :=
  match o with
  | Raised (CmdExcError _) => true
  | _ => false
  end.

(** ** A three-key binding and a configuration *)

Module Chord.

#[local] Existing Instance Sample.runner.

Definition Key_L : Z := 0x4c.

(** A mode with three single keys bound: "j" to a command that posts a
    key, "k" to one the runner rejects, "l" to one that breaks it. *)
Definition keys_bound : ChainMatcher.state :=
  ChainMatcher.mkState
    [([Sample.info Sample.Key_J], "fake-key"%string);
     ([Sample.info Sample.Key_K], "fail"%string);
     ([Sample.info Key_L], "crash"%string)] [].

(** A fresh parser of that mode, with a window focused and "j" already
    posted to it. *)
Definition keys_fresh : World ChainMatcher.state :=
  mkWorld (mkParser keys_bound [] false) (Some Sample.window)
    [(Sample.window, Sample.press Sample.Key_J)] [].

(** A mode with the single chain "jkj" bound. *)
Definition jkj_bound : ChainMatcher.state :=
  ChainMatcher.mkState
    [([Sample.info Sample.Key_J; Sample.info Sample.Key_K;
       Sample.info Sample.Key_J], "open"%string)] [].

(** The parser after a real "j": one key is buffered. *)
Definition after_j (f : option QWindow) : World ChainMatcher.state :=
  snd (handle Sample.is_modifier_key (Sample.press Sample.Key_J) false
         (mkWorld (mkParser jkj_bound [] false) f [] [])).

(** The parser after a real "j" and a real "k": two keys are buffered. *)
Definition after_jk (f : option QWindow) : World ChainMatcher.state :=
  snd (handle Sample.is_modifier_key (Sample.press Sample.Key_K) false
         (after_j f)).

(** The matcher of a new window: nothing bound, nothing typed. *)
Definition base_init (win_id : nat) : ChainMatcher.state :=
  ChainMatcher.mkState [] [].

(** The configuration: insert mode binds "jj", the other modes nothing. *)
Definition read_config (mode : string) (b : ChainMatcher.state)
  : ChainMatcher.state :=
  if String.eqb mode "insert"
  then ChainMatcher.mkState (ChainMatcher.bindings Sample.jj_bound)
         (ChainMatcher.sequence b)
  else b.

(** A runner whose commands post nothing: "fail" is rejected with a
    command error, every other command returns. *)
Definition quiet_run (cmdstr : string) (count : option Z) (v : Env)
  : Outcome unit * Env :=
  if String.eqb cmdstr "fail"
  then (Raised (CmdExcError "fail: no such command"), v)
  else (Returned tt, v).

Definition quiet_runner : CommandRunner :=
  {| runner_run := quiet_run; runner_format_exc := Sample.format_exc |}.

(** A real "j", a real "k" with a window focused, then a dry-run probe. *)
Definition typed_jk_then_probe : list Op :=
  [OpHandle (mkCall (Sample.press Sample.Key_J) false (Some Sample.window));
   OpHandle (mkCall (Sample.press Sample.Key_K) false (Some Sample.window));
   OpHandle (mkCall (Sample.press Sample.Key_K) true None)].

End Chord.

(** Runs the monadic operations of a method on a given world. *)
Ltac run_M :=
  unfold handle, super_handle, clear_keystring,
    super_clear_keystring, reset_orig_sequence,
    set_orig_sequence, set_ignore_next_key, set_base, set_self, get_self,
    focusWindow, bind, ret;
  cbn [fst snd self base orig_sequence ignore_next_key focus posted errors].

(** ** Properties *)

Section Properties.

Context {B : Type} `{BaseKeyParser B} `{CommandRunner}.
Variable is_modifier_key : Z -> bool.
Variable commandrunner_run : string -> option Z -> M B unit.
Variable format_exc : exception -> string.

(** The replay loop posts [replayed window s] and changes nothing else. *)
Lemma for_each_replay_key (window : QWindow) (s : KeySequence) (w : World B) :
  for_each s (replay_key window) w
  = (Returned tt,
     mkWorld (self w) (focus w) (posted w ++ replayed window s) (errors w)).
Proof.
  revert w. induction s as [|k s IH]; intros [p f q m].
  - cbn. now rewrite app_nil_r.
  - cbn [for_each]. unfold bind at 1.
    unfold replay_key at 1. unfold bind at 1. unfold postEvent at 1 2.
    cbn [self focus posted errors]. rewrite IH.
    cbn. now rewrite <- !app_assoc.
Qed.

(** [execute] on a runner of commands: the parser is left alone. *)
Lemma execute_lifted (run : string -> option Z -> Env -> Outcome unit * Env)
    (fe : exception -> string) (cmdstr : string) (count : option Z)
    (w : World B) :
  execute (lift_runner run) fe cmdstr count w
  = match run cmdstr count (env_of w) with
    | (Returned _, v) => (Returned tt, with_env w v)
    | (Raised (CmdExcError text), v) =>
        (Returned tt,
         with_env w
           (mkEnv (env_focus v) (env_posted v)
              (env_errors v ++ [(text, fe (CmdExcError text))])))
    | (Raised (OtherException cls text), v) =>
        (Raised (OtherException cls text), with_env w v)
    end.
Proof.
  unfold execute, try_except, lift_runner.
  destruct (run cmdstr count (env_of w)) as [[[]|[text|cls text]] v];
    reflexivity.
Qed.

Lemma execute_lifted_self
    (run : string -> option Z -> Env -> Outcome unit * Env)
    (fe : exception -> string) (cmdstr : string) (count : option Z)
    (w : World B) :
  self (snd (execute (lift_runner run) fe cmdstr count w)) = self w.
Proof.
  rewrite execute_lifted.
  destruct (run cmdstr count (env_of w)) as [[[]|[text|cls text]] v];
    reflexivity.
Qed.

(** No command runs in a dry run, or when the verdict is not ExactMatch. *)
Lemma bound_command_none (b : B) (e : QKeyEvent) (dry_run : bool) :
  dry_run = true \/ br_match (base_handle b e dry_run) <> ExactMatch ->
  bound_command b e dry_run = None.
Proof.
  unfold bound_command. intros [-> | Hne]; [reflexivity|].
  destruct (br_match _); try congruence;
    now rewrite andb_false_r.
Qed.

Lemma bound_command_some (b : B) (e : QKeyEvent) (dry_run : bool)
    (c : string * option Z) :
  bound_command b e dry_run = Some c ->
  dry_run = false
  /\ br_match (base_handle b e dry_run) = ExactMatch
  /\ base_binding b e = Some c.
Proof.
  unfold bound_command. destruct dry_run; [discriminate|].
  destruct (br_match _); cbn; try discriminate. auto.
Qed.

(** A call that passes the guard of line 95 and runs no command, run
    symbolically. *)
Lemma handle_delegated (w : World B) (e : QKeyEvent) (dry_run : bool) :
  is_modifier_key (ev_key e) = false ->
  ignore_next_key (self w) = false ->
  bound_command (base (self w)) e dry_run = None ->
  let p := self w in
  let r := base_handle (base p) e dry_run in
  let scratch := append_event (orig_sequence p) e in
  let kept := committed (orig_sequence p) scratch dry_run r in
  handle is_modifier_key e dry_run w
  = if returns_early scratch dry_run r
    then (Returned (br_match r),
          mkWorld (mkParser (br_state r) kept false)
                  (focus w) (posted w) (errors w))
    else
      match focus w with
      | None =>
          (Returned (br_match r),
           mkWorld (mkParser (br_state r) kept false)
                   (focus w) (posted w) (errors w))
      | Some window =>
          (Returned ExactMatch,
           mkWorld (mkParser (br_state r) kept true)
                   (focus w) (posted w ++ replayed window scratch) (errors w))
      end.
Proof.
  destruct w as [[b s i] f q m].
  cbn [self base orig_sequence ignore_next_key focus posted errors].
  intros Hmod -> Hnone.
  unfold committed, returns_early. unfold bound_command in Hnone.
  run_M. rewrite Hmod.
  cbn [orb self base orig_sequence ignore_next_key].
  destruct (base_handle b e dry_run) as [v c b'].
  cbn [br_match br_cleared br_state] in *.
  destruct c, s, v, dry_run, f;
    cbn [negb andb SequenceMatch_eqb] in Hnone;
    try rewrite Hnone; unfold execute_binding;
    cbn -[for_each append_event replayed List.length Nat.eqb];
    try reflexivity;
    match goal with
    | |- context [(?n =? 1)%nat] => destruct (n =? 1)%nat
    end;
    cbn -[for_each append_event replayed];
    rewrite ?for_each_replay_key; reflexivity.
Qed.

(** A call that passes the guard of line 95 and runs a command: the
    matcher's changes come first, then the command; the call returns
    ExactMatch unless [execute] lets an exception out. *)
Lemma handle_executes (w : World B) (e : QKeyEvent) (dry_run : bool)
    (cmdstr : string) (count : option Z) :
  is_modifier_key (ev_key e) = false ->
  ignore_next_key (self w) = false ->
  bound_command (base (self w)) e dry_run = Some (cmdstr, count) ->
  let p := self w in
  let r := base_handle (base p) e dry_run in
  let scratch := append_event (orig_sequence p) e in
  let kept := committed (orig_sequence p) scratch dry_run r in
  handle is_modifier_key e dry_run w
  = match
      execute (lift_runner runner_run) runner_format_exc cmdstr count
        (mkWorld (mkParser (br_state r) kept false)
           (focus w) (posted w) (errors w))
    with
    | (Returned _, w') => (Returned ExactMatch, w')
    | (Raised x, w') => (Raised x, w')
    end.
Proof.
  destruct w as [[b s i] f q m].
  cbn [self base orig_sequence ignore_next_key focus posted errors].
  intros Hmod -> Hsome.
  apply bound_command_some in Hsome as (-> & Hexact & Hbinding).
  unfold committed. run_M. rewrite Hmod.
  cbn [orb self base orig_sequence ignore_next_key].
  rewrite Hbinding.
  destruct (base_handle b e false) as [v c b'].
  cbn [br_match br_cleared br_state] in *. subst v.
  unfold execute_binding. cbn [negb andb SequenceMatch_eqb].
  destruct c, s;
    cbn -[execute for_each append_event replayed List.length Nat.eqb];
    match goal with
    | |- context [execute ?run ?fe ?c ?n ?w0] =>
        destruct (execute run fe c n w0) as [[[]|x] w']
    end;
    cbn -[for_each append_event replayed List.length Nat.eqb];
    rewrite ?orb_true_r; reflexivity.
Qed.

(** A call stopped by the guard of line 95: only the flag is written. *)
Lemma handle_guarded (w : World B) (e : QKeyEvent) (dry_run : bool) :
  is_modifier_key (ev_key e) || ignore_next_key (self w) = true ->
  handle is_modifier_key e dry_run w
  = (Returned NoMatch,
     mkWorld (mkParser (base (self w)) (orig_sequence (self w))
                       (ignore_next_key (self w) && dry_run))
             (focus w) (posted w) (errors w)).
Proof.
  intros Hguard. run_M. now rewrite Hguard.
Qed.

Lemma guard_false (w : World B) (e : QKeyEvent) :
  is_modifier_key (ev_key e) = false ->
  ignore_next_key (self w) = false ->
  is_modifier_key (ev_key e) || ignore_next_key (self w) = false.
Proof. now intros -> ->. Qed.

(** The original sequence a delegating call leaves. *)
Lemma handle_delegated_orig_sequence (w : World B) (e : QKeyEvent)
    (dry_run : bool) :
  is_modifier_key (ev_key e) = false ->
  ignore_next_key (self w) = false ->
  orig_sequence (self (snd (handle is_modifier_key e dry_run w)))
  = committed (orig_sequence (self w))
      (append_event (orig_sequence (self w)) e) dry_run
      (base_handle (base (self w)) e dry_run).
Proof.
  intros Hmod Hign.
  destruct (bound_command (base (self w)) e dry_run) as [[cmdstr count]|]
    eqn:Hcmd.
  - pose proof (handle_executes w e _ Hmod Hign Hcmd) as E.
    cbv zeta in E. rewrite E.
    match goal with
    | |- context [execute ?run ?fe ?c ?n ?w0] =>
        pose proof (execute_lifted_self runner_run fe c n w0) as Hself;
        destruct (execute run fe c n w0) as [[[]|x] w']
    end; cbn [snd] in *; now rewrite Hself.
  - pose proof (handle_delegated w e dry_run Hmod Hign Hcmd) as E.
    cbv zeta in E. rewrite E.
    destruct (returns_early _ _ _); [reflexivity|].
    destruct (focus w); reflexivity.
Qed.

(** A dry run leaves the flag as it finds it, whatever the matcher does. *)
Lemma handle_dry_run_flag (w : World B) (e : QKeyEvent) :
  ignore_next_key (self (snd (handle is_modifier_key e true w)))
  = ignore_next_key (self w).
Proof.
  destruct (is_modifier_key (ev_key e) || ignore_next_key (self w)) eqn:G.
  - rewrite handle_guarded by exact G. cbn. apply andb_true_r.
  - apply orb_false_elim in G as [Hmod Hign].
    pose proof (handle_delegated w e true Hmod Hign eq_refl) as E.
    cbv zeta in E. rewrite E. unfold returns_early.
    cbn. congruence.
Qed.

Lemma handle_calls_app (cs cs' : list Call) (w : World B) :
  handle_calls is_modifier_key (cs ++ cs') w
  = handle_calls is_modifier_key cs' (handle_calls is_modifier_key cs w).
Proof.
  revert w. induction cs as [|c cs IH]; intros w; [reflexivity|].
  cbn [app handle_calls]. apply IH.
Qed.

(** C1: a real call that completes a two-key chain (the first key is
    buffered, the second arrives) on which the inherited matcher says
    NoMatch, with a window focused, returns ExactMatch and posts exactly
    four events to that window: press and release of the first key, then
    press and release of the second. *)
Theorem handle_replays_two_key_chain (w : World B) (k1 : KeyInfo)
    (e : QKeyEvent) (window : QWindow) :
  orig_sequence (self w) = [k1] ->
  is_modifier_key (ev_key e) = false ->
  ignore_next_key (self w) = false ->
  br_match (base_handle (base (self w)) e false) = NoMatch ->
  focus w = Some window ->
  fst (handle is_modifier_key e false w) = Returned ExactMatch
  /\ posted (snd (handle is_modifier_key e false w))
     = posted w
       ++ [(window, to_event k1 KeyPress);
           (window, to_event k1 KeyRelease);
           (window, to_event (from_event e) KeyPress);
           (window, to_event (from_event e) KeyRelease)].
Proof.
  intros Hbuf Hmod Hign Hno Hfocus.
  assert (Hnone : bound_command (base (self w)) e false = None)
    by (apply bound_command_none; right; congruence).
  pose proof (handle_delegated w e false Hmod Hign Hnone) as E.
  cbv zeta in E. rewrite E. clear E.
  unfold returns_early. rewrite Hbuf, Hno, Hfocus. cbn.
  split; reflexivity.
Qed.

(** C2: the buffered original sequence gets longer in a call only when the
    call is real and the inherited matcher says PartialMatch, and then it
    is the old sequence with the current event appended; and given a
    matcher that resets its chain on a real NoMatch, after every real call
    whose NoMatch triggers the replay the buffered sequence is empty. *)
Theorem orig_sequence_invariant (Hbase : base_resets_on_no_match)
    (w : World B) (e : QKeyEvent) (dry_run : bool) :
  let w' := snd (handle is_modifier_key e dry_run w) in
  (List.length (orig_sequence (self w))
     < List.length (orig_sequence (self w')) ->
   dry_run = false
   /\ is_modifier_key (ev_key e) = false
   /\ ignore_next_key (self w) = false
   /\ br_match (base_handle (base (self w)) e dry_run) = PartialMatch
   /\ orig_sequence (self w') = append_event (orig_sequence (self w)) e)
  /\ (dry_run = false ->
      is_modifier_key (ev_key e) = false ->
      ignore_next_key (self w) = false ->
      br_match (base_handle (base (self w)) e dry_run) = NoMatch ->
      List.length (append_event (orig_sequence (self w)) e) <> 1%nat ->
      focus w <> None ->
      orig_sequence (self w') = []).
Proof.
  intros w'. subst w'. split.
  - destruct (is_modifier_key (ev_key e) || ignore_next_key (self w)) eqn:G.
    + rewrite handle_guarded by exact G. cbn. lia.
    + apply orb_false_elim in G as [Hmod Hign].
      rewrite handle_delegated_orig_sequence by assumption.
      unfold committed.
      destruct dry_run;
        destruct (br_match (base_handle (base (self w)) e _)) eqn:Hm;
        destruct (br_cleared (base_handle (base (self w)) e _));
        cbn; intros Hlt; try lia; repeat split; auto.
  - intros -> Hmod Hign Hno _ _.
    rewrite handle_delegated_orig_sequence by assumption.
    unfold committed. rewrite Hno. cbn.
    now rewrite (Hbase _ _ Hno).
Qed.

(** C3, amended: a real call with a non-modifier key and the flag unset
    that finds the buffered original sequence empty (so that the sequence
    with this event holds exactly one key) never replays: the flag stays
    unset, and a verdict of NoMatch or PartialMatch is returned as it is
    with no event posted.  On ExactMatch the bound command, if there is one,
    runs through execute: the event queue is then the one the command left,
    and ExactMatch is returned unless the command raised something other
    than a command error, which handle lets out. *)
Theorem handle_single_key_returns_verdict (w : World B) (e : QKeyEvent) :
  orig_sequence (self w) = [] ->
  is_modifier_key (ev_key e) = false ->
  ignore_next_key (self w) = false ->
  let r := base_handle (base (self w)) e false in
  let done := handle is_modifier_key e false w in
  ignore_next_key (self (snd done)) = false
  /\ (br_match r <> ExactMatch ->
      fst done = Returned (br_match r) /\ posted (snd done) = posted w)
  /\ (br_match r = ExactMatch ->
      match base_binding (base (self w)) e with
      | None => fst done = Returned ExactMatch /\ posted (snd done) = posted w
      | Some (cmdstr, count) =>
          let ran := runner_run cmdstr count (env_of w) in
          posted (snd done) = env_posted (snd ran)
          /\ fst done
             = match fst ran with
               | Raised (OtherException cls text) =>
                   Raised (OtherException cls text)
               | _ => Returned ExactMatch
               end
      end).
Proof.
  intros Hbuf Hmod Hign r done. subst r done.
  destruct (bound_command (base (self w)) e false) as [[cmdstr count]|]
    eqn:Hcmd.
  - pose proof (handle_executes w e _ Hmod Hign Hcmd) as E.
    cbv zeta in E. rewrite E. clear E.
    apply bound_command_some in Hcmd as (_ & Hexact & Hbinding).
    rewrite Hbinding, execute_lifted. unfold env_of, with_env.
    cbn [self focus posted errors].
    destruct (runner_run cmdstr count _) as [[[]|[text|cls text]] v];
      cbn; repeat split; congruence.
  - pose proof (handle_delegated w e false Hmod Hign Hcmd) as E.
    cbv zeta in E. rewrite E. clear E.
    unfold returns_early, bound_command in *. rewrite Hbuf.
    cbn [append_event app List.length Nat.eqb orb negb andb fst snd posted
           self ignore_next_key] in *.
    repeat split; auto.
    intros Hexact. rewrite Hexact in Hcmd. cbn in Hcmd. rewrite Hcmd.
    rewrite Hexact. auto.
Qed.

(** C4: given a matcher whose dry run does not reset the chain, a dry-run
    call leaves the buffered original sequence and the flag as they were
    and posts no event, for every event and every result. *)
Theorem handle_dry_run_frame (Hbase : base_dry_run_pure)
    (w : World B) (e : QKeyEvent) :
  let w' := snd (handle is_modifier_key e true w) in
  orig_sequence (self w') = orig_sequence (self w)
  /\ ignore_next_key (self w') = ignore_next_key (self w)
  /\ posted w' = posted w.
Proof.
  intros w'. subst w'.
  split; [|split; [apply handle_dry_run_flag|]];
    destruct (is_modifier_key (ev_key e) || ignore_next_key (self w)) eqn:G;
    try (rewrite handle_guarded by exact G; reflexivity);
    apply orb_false_elim in G as [Hmod Hign].
  - rewrite handle_delegated_orig_sequence by assumption.
    unfold committed. cbn. now rewrite Hbase.
  - pose proof (handle_delegated w e true Hmod Hign eq_refl) as E.
    cbv zeta in E. now rewrite E.
Qed.

(** C6: when the event is a pure modifier key or the flag is set, handle
    returns NoMatch at once: the world it leaves is the one it found with
    only the flag rewritten, so the inherited matcher has not run (its
    state is the old one) and the buffered sequence is unchanged. *)
Theorem handle_skips_modifier_or_ignored (w : World B) (e : QKeyEvent)
    (dry_run : bool) :
  is_modifier_key (ev_key e) = true \/ ignore_next_key (self w) = true ->
  handle is_modifier_key e dry_run w
  = (Returned NoMatch,
     mkWorld (mkParser (base (self w)) (orig_sequence (self w))
                       (ignore_next_key (self w) && dry_run))
             (focus w) (posted w) (errors w)).
Proof.
  intros Hguard. apply handle_guarded.
  destruct Hguard as [-> | ->]; [reflexivity | apply orb_true_r].
Qed.

(** C7: a real call that reaches the replay branch (NoMatch on a chain of
    more than one key) while no window has focus posts nothing, leaves the
    flag unset and returns NoMatch. *)
Theorem handle_no_focus_no_replay (w : World B) (e : QKeyEvent) :
  is_modifier_key (ev_key e) = false ->
  ignore_next_key (self w) = false ->
  br_match (base_handle (base (self w)) e false) = NoMatch ->
  List.length (append_event (orig_sequence (self w)) e) <> 1%nat ->
  focus w = None ->
  fst (handle is_modifier_key e false w) = Returned NoMatch
  /\ posted (snd (handle is_modifier_key e false w)) = posted w
  /\ ignore_next_key (self (snd (handle is_modifier_key e false w))) = false.
Proof.
  intros Hmod Hign Hno Hlen Hfocus.
  assert (Hnone : bound_command (base (self w)) e false = None)
    by (apply bound_command_none; right; congruence).
  pose proof (handle_delegated w e false Hmod Hign Hnone) as E.
  cbv zeta in E. rewrite E. clear E.
  rewrite Hfocus, Hno.
  destruct (returns_early _ _ _); cbn; auto.
Qed.

(** C8: over any run of dry-run calls the flag keeps its value (a set flag
    stays set, an unset flag is not set), and a set flag is unset after
    the first real call that follows. *)
Theorem ignore_flag_survives_dry_runs (cs : list Call) (c : Call)
    (w : World B) :
  Forall (fun c' => c_dry_run c' = true) cs ->
  ignore_next_key (self (handle_calls is_modifier_key cs w))
  = ignore_next_key (self w)
  /\ (ignore_next_key (self w) = true ->
      c_dry_run c = false ->
      ignore_next_key (self (handle_calls is_modifier_key (cs ++ [c]) w))
      = false).
Proof.
  intros Hdry.
  assert (Hkeep : ignore_next_key (self (handle_calls is_modifier_key cs w))
                  = ignore_next_key (self w)).
  { revert w. induction Hdry as [|c' cs Hc' _ IH]; intros w; [reflexivity|].
    cbn [handle_calls]. rewrite IH, Hc'.
    now rewrite handle_dry_run_flag. }
  split; [exact Hkeep|].
  intros Hset Hreal.
  rewrite handle_calls_app. cbn [handle_calls]. rewrite Hreal.
  rewrite handle_guarded.
  - cbn. apply andb_false_r.
  - cbn. rewrite Hkeep, Hset. apply orb_true_r.
Qed.

(** C9: in every state, clear_keystring returns with the buffered original
    sequence empty, and calling it again leaves the sequence as the first
    call left it. *)
Theorem clear_keystring_empties (w : World B) :
  fst (clear_keystring w) = Returned tt
  /\ orig_sequence (self (snd (clear_keystring w))) = []
  /\ orig_sequence (self (snd (clear_keystring (snd (clear_keystring w)))))
     = orig_sequence (self (snd (clear_keystring w))).
Proof.
  destruct w as [[b s i] f q m]. run_M.
  destruct s; cbn; auto.
Qed.

(** C5: when the runner raises a command error, execute returns
    normally and the world is the one the runner left with exactly one
    call of message.error added, carrying the error's text and the
    trace; when the runner returns, execute returns normally in the
    world the runner left, with no message added. *)
Theorem execute_reports_command_errors (cmdstr : string)
    (count : option Z) (w : World B) :
  (forall text w',
      commandrunner_run cmdstr count w = (Raised (CmdExcError text), w') ->
      execute commandrunner_run format_exc cmdstr count w
      = (Returned tt,
         mkWorld (self w') (focus w') (posted w')
                 (errors w' ++ [(text, format_exc (CmdExcError text))])))
  /\ (forall w',
         commandrunner_run cmdstr count w = (Returned tt, w') ->
         execute commandrunner_run format_exc cmdstr count w
         = (Returned tt, w')).
Proof.
  split; intros; unfold execute, try_except;
    match goal with Hrun : _ = _ |- _ => rewrite Hrun end; reflexivity.
Qed.

(** C10: an exception of the runner that is not a command error leaves
    execute as it is, in the world the runner left: no message is
    added. *)
Theorem execute_propagates_other_exceptions (cmdstr : string)
    (count : option Z) (w w' : World B) (cls text : string) :
  commandrunner_run cmdstr count w
  = (Raised (OtherException cls text), w') ->
  execute commandrunner_run format_exc cmdstr count w
  = (Raised (OtherException cls text), w').
Proof.
  intros Hrun. unfold execute, try_except. now rewrite Hrun.
Qed.

End Properties.

#[local] Existing Instance Sample.runner.

(** ** The table matcher meets the contract *)

Lemma chain_matcher_dry_run_pure : @base_dry_run_pure _ ChainMatcher.parser.
Proof. intros b e. reflexivity. Qed.

Lemma chain_matcher_resets_on_no_match :
  @base_resets_on_no_match _ ChainMatcher.parser.
Proof.
  intros b e. cbn. unfold ChainMatcher.handle. cbn.
  destruct (ChainMatcher.match_key _ _); cbn; congruence.
Qed.

(** ** The theorems on the chain "j", "k" with only "jj" bound *)

Example sample_after_j :
  Sample.after_j (Some Sample.window)
  = mkWorld
      (mkParser
         (ChainMatcher.mkState (ChainMatcher.bindings Sample.jj_bound)
            [Sample.info Sample.Key_J])
         [Sample.info Sample.Key_J] false)
      (Some Sample.window) [] [].
Proof. reflexivity. Qed.

Lemma handle_replays_two_key_chain_witness :
  fst (handle Sample.is_modifier_key (Sample.press Sample.Key_K) false
         (Sample.after_j (Some Sample.window)))
  = Returned ExactMatch
  /\ posted Sample.after_jk
     = [(Sample.window, Sample.press Sample.Key_J);
        (Sample.window, Sample.release Sample.Key_J);
        (Sample.window, Sample.press Sample.Key_K);
        (Sample.window, Sample.release Sample.Key_K)].
Proof.
  apply (handle_replays_two_key_chain Sample.is_modifier_key
           (Sample.after_j (Some Sample.window)) (k1 := Sample.info Sample.Key_J)
           (Sample.press Sample.Key_K) (window := Sample.window));
    reflexivity.
Defined.

Lemma orig_sequence_invariant_witness :
  orig_sequence (self (Sample.after_j None)) = [Sample.info Sample.Key_J]
  /\ orig_sequence (self Sample.after_jk) = [].
Proof.
  split.
  - apply (proj1 (orig_sequence_invariant Sample.is_modifier_key
                    chain_matcher_resets_on_no_match
                    (Sample.fresh None) (Sample.press Sample.Key_J) false)).
    vm_compute. lia.
  - apply (proj2 (orig_sequence_invariant Sample.is_modifier_key
                    chain_matcher_resets_on_no_match
                    (Sample.after_j (Some Sample.window))
                    (Sample.press Sample.Key_K) false));
      try reflexivity; vm_compute; discriminate.
Defined.

Lemma handle_single_key_returns_verdict_witness :
  (fst (handle Sample.is_modifier_key (Sample.press Sample.Key_K) false
          (Sample.fresh (Some Sample.window)))
   = Returned NoMatch
   /\ posted (snd (handle Sample.is_modifier_key (Sample.press Sample.Key_K)
                     false (Sample.fresh (Some Sample.window))))
      = []
   /\ ignore_next_key
        (self (snd (handle Sample.is_modifier_key (Sample.press Sample.Key_K)
                      false (Sample.fresh (Some Sample.window)))))
      = false)
  /\ (fst (handle Sample.is_modifier_key (Sample.press Sample.Key_J) false
             Chord.keys_fresh)
      = Returned ExactMatch
      /\ posted (snd (handle Sample.is_modifier_key
                        (Sample.press Sample.Key_J) false Chord.keys_fresh))
         = [(Sample.window, Sample.press Sample.Key_J);
            (Sample.window, Sample.press Sample.Key_K)]).
Proof.
  destruct (handle_single_key_returns_verdict Sample.is_modifier_key
              (Sample.fresh (Some Sample.window)) (Sample.press Sample.Key_K)
              eq_refl eq_refl eq_refl) as (Hflag & Hplain & _).
  destruct (handle_single_key_returns_verdict Sample.is_modifier_key
              Chord.keys_fresh (Sample.press Sample.Key_J)
              eq_refl eq_refl eq_refl) as (_ & _ & Hexact).
  split.
  - destruct Hplain as [Hret Hq]; [vm_compute; discriminate|].
    split; [exact Hret | split; [exact Hq | exact Hflag]].
  - specialize (Hexact eq_refl). lazy in Hexact.
    destruct Hexact as [Hq Hret]. split; [exact Hret | exact Hq].
Defined.

(** C3 as stated, on a buffer of exactly one key, fails: with "j" buffered, a
    real "k" that matches nothing is answered with ExactMatch, not with the
    matcher's NoMatch, and four events are posted. *)
Lemma handle_one_buffered_key_counterexample :
  List.length (orig_sequence (self (Sample.after_j (Some Sample.window))))
  = 1%nat
  /\ Sample.is_modifier_key (ev_key (Sample.press Sample.Key_K)) = false
  /\ ignore_next_key (self (Sample.after_j (Some Sample.window))) = false
  /\ br_match
       (base_handle (base (self (Sample.after_j (Some Sample.window))))
          (Sample.press Sample.Key_K) false)
     = NoMatch
  /\ fst (handle Sample.is_modifier_key (Sample.press Sample.Key_K) false
            (Sample.after_j (Some Sample.window)))
     = Returned ExactMatch
  /\ List.length
       (posted
          (snd (handle Sample.is_modifier_key (Sample.press Sample.Key_K)
                  false (Sample.after_j (Some Sample.window)))))
     = 4%nat
  /\ ~ (fst (handle Sample.is_modifier_key (Sample.press Sample.Key_K) false
               (Sample.after_j (Some Sample.window)))
        = Returned
            (br_match
               (base_handle
                  (base (self (Sample.after_j (Some Sample.window))))
                  (Sample.press Sample.Key_K) false))
        /\ posted
             (snd (handle Sample.is_modifier_key (Sample.press Sample.Key_K)
                     false (Sample.after_j (Some Sample.window))))
           = posted (Sample.after_j (Some Sample.window))).
Proof.
  repeat split; try reflexivity.
  intros [Hret _]. vm_compute in Hret. discriminate Hret.
Qed.

Lemma handle_dry_run_frame_witness :
  orig_sequence
    (self (snd (handle Sample.is_modifier_key (Sample.press Sample.Key_K) true
                  (Sample.after_j (Some Sample.window)))))
  = [Sample.info Sample.Key_J]
  /\ ignore_next_key
       (self (snd (handle Sample.is_modifier_key (Sample.press Sample.Key_K)
                     true Sample.after_jk)))
     = true
  /\ posted
       (snd (handle Sample.is_modifier_key (Sample.press Sample.Key_K) true
               (Sample.after_j (Some Sample.window))))
     = [].
Proof.
  split; [|split].
  - apply (handle_dry_run_frame Sample.is_modifier_key
             chain_matcher_dry_run_pure
             (Sample.after_j (Some Sample.window)) (Sample.press Sample.Key_K)).
  - apply (handle_dry_run_frame Sample.is_modifier_key
             chain_matcher_dry_run_pure
             Sample.after_jk (Sample.press Sample.Key_K)).
  - apply (handle_dry_run_frame Sample.is_modifier_key
             chain_matcher_dry_run_pure
             (Sample.after_j (Some Sample.window)) (Sample.press Sample.Key_K)).
Defined.

Lemma handle_skips_modifier_or_ignored_witness :
  handle Sample.is_modifier_key (Sample.press Sample.Key_Shift) false
    (Sample.after_j (Some Sample.window))
  = (Returned NoMatch, Sample.after_j (Some Sample.window))
  /\ handle Sample.is_modifier_key (Sample.press Sample.Key_K) false
       Sample.after_jk
     = (Returned NoMatch,
        mkWorld (mkParser (base (self Sample.after_jk)) [] false)
          (Some Sample.window) (posted Sample.after_jk) []).
Proof.
  split.
  - apply (handle_skips_modifier_or_ignored Sample.is_modifier_key
             (Sample.after_j (Some Sample.window))
             (Sample.press Sample.Key_Shift) false).
    left. reflexivity.
  - apply (handle_skips_modifier_or_ignored Sample.is_modifier_key
             Sample.after_jk (Sample.press Sample.Key_K) false).
    right. reflexivity.
Defined.

Lemma handle_no_focus_no_replay_witness :
  fst (handle Sample.is_modifier_key (Sample.press Sample.Key_K) false
         (Sample.after_j None))
  = Returned NoMatch
  /\ posted (snd (handle Sample.is_modifier_key (Sample.press Sample.Key_K)
                    false (Sample.after_j None)))
     = []
  /\ ignore_next_key
       (self (snd (handle Sample.is_modifier_key (Sample.press Sample.Key_K)
                     false (Sample.after_j None))))
     = false.
Proof.
  apply (handle_no_focus_no_replay Sample.is_modifier_key
           (Sample.after_j None) (Sample.press Sample.Key_K));
    try reflexivity.
  vm_compute. discriminate.
Defined.

Lemma ignore_flag_survives_dry_runs_witness :
  ignore_next_key
    (self (handle_calls Sample.is_modifier_key
             [mkCall (Sample.press Sample.Key_K) true (Some Sample.window);
              mkCall (Sample.press Sample.Key_J) true None]
             Sample.after_jk))
  = true
  /\ ignore_next_key
       (self (handle_calls Sample.is_modifier_key
                ([mkCall (Sample.press Sample.Key_K) true (Some Sample.window);
                  mkCall (Sample.press Sample.Key_J) true None]
                 ++ [mkCall (Sample.press Sample.Key_J) false
                       (Some Sample.window)])
                Sample.after_jk))
     = false.
Proof.
  assert (Hdry : Forall (fun c' : Call => c_dry_run c' = true)
                   [mkCall (Sample.press Sample.Key_K) true (Some Sample.window);
                    mkCall (Sample.press Sample.Key_J) true None])
    by (repeat constructor).
  destruct (ignore_flag_survives_dry_runs Sample.is_modifier_key
              (mkCall (Sample.press Sample.Key_J) false (Some Sample.window))
              Sample.after_jk Hdry) as [Hkeep Hreal].
  split.
  - exact Hkeep.
  - apply Hreal; reflexivity.
Defined.

Lemma execute_reports_command_errors_witness :
  execute Sample.run Sample.format_exc "fail" None (Sample.fresh None)
  = (Returned tt,
     mkWorld (mkParser Sample.jj_bound [] false) None []
       [("fail: no such command"%string,
         Sample.format_exc (CmdExcError "fail: no such command"))])
  /\ execute Sample.run Sample.format_exc "leave-mode" (Some 2%Z)
       (Sample.fresh None)
     = (Returned tt, Sample.fresh None).
Proof.
  split.
  - apply (proj1 (execute_reports_command_errors Sample.run Sample.format_exc
                    "fail" None (Sample.fresh None))
             "fail: no such command"%string (Sample.fresh None)).
    reflexivity.
  - apply (proj2 (execute_reports_command_errors Sample.run Sample.format_exc
                    "leave-mode" (Some 2%Z) (Sample.fresh None))
             (Sample.fresh None)).
    reflexivity.
Defined.

Lemma execute_propagates_other_exceptions_witness :
  execute Sample.run Sample.format_exc "scroll" None (Sample.fresh None)
  = (Raised (OtherException "RuntimeError" "runner broke"), Sample.fresh None).
Proof.
  apply (execute_propagates_other_exceptions Sample.run Sample.format_exc
           "scroll" None (Sample.fresh None)).
  reflexivity.
Defined.

(** ** Further properties of the methods *)

Lemma replayed_length (window : QWindow) (s : KeySequence) :
  List.length (replayed window s) = 2 * List.length s.
Proof.
  induction s as [|k s IH]; [reflexivity|].
  cbn [replayed flat_map app List.length] in *. fold (replayed window s).
  rewrite IH. lia.
Qed.

Lemma append_event_length (s : KeySequence) (e : QKeyEvent) :
  List.length (append_event s e) = S (List.length s).
Proof. unfold append_event. rewrite length_app. cbn. lia. Qed.

Lemma scratch_single (s : KeySequence) (e : QKeyEvent) :
  (List.length (append_event s e) =? 1)%nat = true <-> s = [].
Proof.
  rewrite append_event_length, Nat.eqb_eq.
  destruct s; cbn; split; intros; try reflexivity; try discriminate; lia.
Qed.

Lemma app_grows {A} (l r : list A) : r <> [] -> l ++ r <> l.
Proof.
  intros Hr Heq. apply Hr.
  apply (app_inv_head l). now rewrite app_nil_r.
Qed.

Lemma replayed_of_scratch_nonempty (window : QWindow) (s : KeySequence)
    (e : QKeyEvent) :
  replayed window (append_event s e) <> [].
Proof.
  intros Heq. apply (f_equal (@List.length _)) in Heq.
  rewrite replayed_length, append_event_length in Heq. cbn in Heq. lia.
Qed.

Section Further.

Context {B : Type} `{BaseKeyParser B} `{CommandRunner}.
Variable is_modifier_key : Z -> bool.
Variable commandrunner_run : string -> option Z -> M B unit.
Variable format_exc : exception -> string.

(** The four ways a call of [handle] can go, with the world each leaves. *)
Lemma handle_cases (w : World B) (e : QKeyEvent) (dry_run : bool) :
  let r := base_handle (base (self w)) e dry_run in
  let scratch := append_event (orig_sequence (self w)) e in
  let kept := committed (orig_sequence (self w)) scratch dry_run r in
  (is_modifier_key (ev_key e) || ignore_next_key (self w) = true
   /\ handle is_modifier_key e dry_run w
      = (Returned NoMatch,
         mkWorld (mkParser (base (self w)) (orig_sequence (self w))
                           (ignore_next_key (self w) && dry_run))
                 (focus w) (posted w) (errors w)))
  \/ (is_modifier_key (ev_key e) = false
      /\ ignore_next_key (self w) = false
      /\ (returns_early scratch dry_run r = true \/ focus w = None)
      /\ bound_command (base (self w)) e dry_run = None
      /\ handle is_modifier_key e dry_run w
         = (Returned (br_match r),
            mkWorld (mkParser (br_state r) kept false)
                    (focus w) (posted w) (errors w)))
  \/ (is_modifier_key (ev_key e) = false
      /\ ignore_next_key (self w) = false
      /\ returns_early scratch dry_run r = false
      /\ exists window,
           focus w = Some window
           /\ handle is_modifier_key e dry_run w
              = (Returned ExactMatch,
                 mkWorld (mkParser (br_state r) kept true)
                         (focus w) (posted w ++ replayed window scratch)
                         (errors w)))
  \/ (is_modifier_key (ev_key e) = false
      /\ ignore_next_key (self w) = false
      /\ dry_run = false
      /\ br_match r = ExactMatch
      /\ exists cmdstr count,
           base_binding (base (self w)) e = Some (cmdstr, count)
           /\ handle is_modifier_key e dry_run w
              = match
                  execute (lift_runner runner_run) runner_format_exc
                    cmdstr count
                    (mkWorld (mkParser (br_state r) kept false)
                       (focus w) (posted w) (errors w))
                with
                | (Returned _, w') => (Returned ExactMatch, w')
                | (Raised x, w') => (Raised x, w')
                end).
Proof.
  intros r scratch kept.
  destruct (is_modifier_key (ev_key e) || ignore_next_key (self w)) eqn:G.
  - left. split; [reflexivity|]. now apply handle_guarded.
  - right. apply orb_false_elim in G as [Hmod Hign].
    destruct (bound_command (base (self w)) e dry_run) as [[cmdstr count]|]
      eqn:Hcmd.
    + right. right.
      pose proof (handle_executes is_modifier_key w e _ Hmod Hign Hcmd) as E.
      cbv zeta in E. fold r scratch kept in E.
      apply bound_command_some in Hcmd as (Hdry & Hexact & Hbinding).
      repeat split; auto. exists cmdstr, count. auto.
    + pose proof (handle_delegated is_modifier_key w e dry_run Hmod Hign Hcmd)
        as E.
      cbv zeta in E. fold r scratch kept in E.
      destruct (returns_early scratch dry_run r) eqn:Hearly.
      * left. auto.
      * destruct (focus w) as [window|] eqn:Hfocus.
        -- right. left. repeat split; auto. exists window. auto.
        -- left. auto.
Qed.

(** What [returns_early] being false says. *)
Lemma returns_early_false (s : KeySequence) (e : QKeyEvent) (dry_run : bool)
    (r : BaseResult B) :
  returns_early (append_event s e) dry_run r = false ->
  dry_run = false /\ s <> [] /\ br_match r = NoMatch.
Proof.
  unfold returns_early. intros Hearly.
  apply orb_false_elim in Hearly as [Hearly Hno].
  apply orb_false_elim in Hearly as [Hdry Hlen].
  repeat split; [exact Hdry| |].
  - intros ->. cbn in Hlen. discriminate.
  - destruct (br_match r); cbn in Hno; congruence.
Qed.

(** The outcome and the world of a call that runs a command. *)
Lemma handle_command_world (p : Parser B) (v : Env) (cmdstr : string)
    (count : option Z) :
  let ran := runner_run cmdstr count v in
  match
    execute (lift_runner runner_run) runner_format_exc cmdstr count
      (mkWorld p (env_focus v) (env_posted v) (env_errors v))
  with
  | (Returned _, w') => (Returned ExactMatch, w')
  | (Raised x, w') => (Raised x, w')
  end
  = (match fst ran with
     | Raised (OtherException cls text) => Raised (OtherException cls text)
     | _ => Returned ExactMatch
     end,
     mkWorld p (env_focus (snd ran)) (env_posted (snd ran))
       (env_errors (snd ran)
        ++ match fst ran with
           | Raised (CmdExcError text) =>
               [(text, runner_format_exc (CmdExcError text))]
           | _ => []
           end)).
Proof.
  intros ran. subst ran. rewrite execute_lifted. unfold env_of, with_env.
  cbn [self focus posted errors]. destruct v as [f q m].
  cbn [env_focus env_posted env_errors].
  destruct (runner_run cmdstr count _) as [[[]|[text|cls text]] v'];
    cbn; rewrite ?app_nil_r; reflexivity.
Qed.

(** X1: a real call on which the inherited matcher says NoMatch, with at
    least one key buffered and a window focused, replays the whole chain:
    it returns ExactMatch, sets the flag, and appends to the event queue the
    press and release of every buffered key in order and then of the current
    key, that is, two events for each key of the chain. *)
Theorem handle_replays_whole_chain (w : World B) (e : QKeyEvent)
    (window : QWindow) :
  is_modifier_key (ev_key e) = false ->
  ignore_next_key (self w) = false ->
  br_match (base_handle (base (self w)) e false) = NoMatch ->
  orig_sequence (self w) <> [] ->
  focus w = Some window ->
  fst (handle is_modifier_key e false w) = Returned ExactMatch
  /\ posted (snd (handle is_modifier_key e false w))
     = posted w ++ replayed window (orig_sequence (self w) ++ [from_event e])
  /\ ignore_next_key (self (snd (handle is_modifier_key e false w))) = true
  /\ List.length (posted (snd (handle is_modifier_key e false w)))
     = List.length (posted w) + 2 * (List.length (orig_sequence (self w)) + 1).
Proof.
  intros Hmod Hign Hno Hbuf Hfocus.
  assert (Hnone : bound_command (base (self w)) e false = None)
    by (apply bound_command_none; right; congruence).
  pose proof (handle_delegated is_modifier_key w e false Hmod Hign Hnone) as E.
  cbv zeta in E. rewrite E. clear E.
  assert (Hlen : (List.length (append_event (orig_sequence (self w)) e) =? 1)%nat
                 = false).
  { destruct (_ =? _)%nat eqn:Hone; [|reflexivity].
    apply scratch_single in Hone. contradiction. }
  unfold returns_early. rewrite Hlen, Hno, Hfocus.
  cbn [orb negb SequenceMatch_eqb fst snd posted self ignore_next_key].
  repeat split.
  rewrite length_app, replayed_length, append_event_length. lia.
Qed.

(** X2: a call that reaches the inherited matcher and is a dry run, or on
    which the matcher's verdict is PartialMatch, runs no command and does
    not replay: it returns that verdict as it is, posts nothing, shows no
    message and leaves the flag unset. *)
Theorem handle_passes_verdict_through (w : World B) (e : QKeyEvent)
    (dry_run : bool) :
  is_modifier_key (ev_key e) = false ->
  ignore_next_key (self w) = false ->
  dry_run = true
  \/ br_match (base_handle (base (self w)) e dry_run) = PartialMatch ->
  fst (handle is_modifier_key e dry_run w)
  = Returned (br_match (base_handle (base (self w)) e dry_run))
  /\ posted (snd (handle is_modifier_key e dry_run w)) = posted w
  /\ errors (snd (handle is_modifier_key e dry_run w)) = errors w
  /\ ignore_next_key (self (snd (handle is_modifier_key e dry_run w))) = false.
Proof.
  intros Hmod Hign Hcase.
  assert (Hnone : bound_command (base (self w)) e dry_run = None).
  { apply bound_command_none.
    destruct Hcase as [-> | Hp]; [now left | right; congruence]. }
  pose proof (handle_delegated is_modifier_key w e dry_run Hmod Hign Hnone)
    as E.
  cbv zeta in E. rewrite E. clear E.
  assert (Hearly : returns_early (append_event (orig_sequence (self w)) e)
                     dry_run (base_handle (base (self w)) e dry_run) = true).
  { unfold returns_early. destruct Hcase as [-> | ->]; [reflexivity|].
    cbn. apply orb_true_r. }
  rewrite Hearly. cbn. auto.
Qed.

(** X3: after a real call that reaches the inherited matcher, the buffered
    original sequence is the old one with the current key appended when the
    verdict is PartialMatch; otherwise it is empty when the matcher cleared
    the key string during the call, and the old one when it did not. *)
Theorem handle_commits_partial_chain (w : World B) (e : QKeyEvent) :
  is_modifier_key (ev_key e) = false ->
  ignore_next_key (self w) = false ->
  let r := base_handle (base (self w)) e false in
  let w' := snd (handle is_modifier_key e false w) in
  (br_match r = PartialMatch ->
   orig_sequence (self w') = orig_sequence (self w) ++ [from_event e])
  /\ (br_match r <> PartialMatch ->
      orig_sequence (self w')
      = if br_cleared r then [] else orig_sequence (self w)).
Proof.
  intros Hmod Hign r w'. subst r w'.
  rewrite handle_delegated_orig_sequence by assumption.
  unfold committed, append_event. cbn [negb andb].
  split; intros Hm.
  - now rewrite Hm.
  - destruct (br_match _); cbn; congruence.
Qed.

(** X4: a call changes the event queue only by a replay or by the command
    of a real ExactMatch: if the queue after the call differs from the queue
    before, the call was real and reached the matcher, and either the
    verdict was NoMatch, the buffer was not empty and a window had focus
    (the call then returned ExactMatch and set the flag), or the verdict was
    ExactMatch and the queue is the one the bound command left. *)
Theorem handle_posts_only_on_replay (w : World B) (e : QKeyEvent)
    (dry_run : bool) :
  posted (snd (handle is_modifier_key e dry_run w)) <> posted w ->
  dry_run = false
  /\ is_modifier_key (ev_key e) = false
  /\ ignore_next_key (self w) = false
  /\ ((br_match (base_handle (base (self w)) e dry_run) = NoMatch
       /\ orig_sequence (self w) <> []
       /\ focus w <> None
       /\ fst (handle is_modifier_key e dry_run w) = Returned ExactMatch
       /\ ignore_next_key (self (snd (handle is_modifier_key e dry_run w)))
          = true)
      \/ (br_match (base_handle (base (self w)) e dry_run) = ExactMatch
          /\ exists cmdstr count,
               base_binding (base (self w)) e = Some (cmdstr, count)
               /\ posted (snd (handle is_modifier_key e dry_run w))
                  = env_posted (snd (runner_run cmdstr count (env_of w))))).
Proof.
  intros Hposted.
  destruct (handle_cases w e dry_run)
    as [[_ E] | [(_ & _ & _ & _ & E)
                | [(Hmod & Hign & Hearly & window & Hf & E)
                  | (Hmod & Hign & Hdry & Hexact & cmdstr & count & Hb & E)]]];
    rewrite E in Hposted |- *; cbn [fst snd posted self ignore_next_key]
      in Hposted |- *;
    try (exfalso; apply Hposted; reflexivity).
  - apply returns_early_false in Hearly as (Hdry & Hbuf & Hno).
    rewrite Hf. repeat split; auto. left. repeat split; auto. discriminate.
  - repeat split; auto. right. split; [exact Hexact|].
    exists cmdstr, count. split; [exact Hb|].
    pose proof (handle_command_world
                  (mkParser (br_state (base_handle (base (self w)) e dry_run))
                     (committed (orig_sequence (self w))
                        (append_event (orig_sequence (self w)) e) dry_run
                        (base_handle (base (self w)) e dry_run)) false)
                  (env_of w) cmdstr count) as Hw.
    cbv zeta in Hw. unfold env_of in Hw at 1 2 3.
    cbn [env_focus env_posted env_errors] in Hw. rewrite Hw. reflexivity.
Qed.

(** X5: the flag is set after a call only if it was set before and the call
    was a dry run, or the call was a real one that replayed the chain to the
    focused window and returned ExactMatch. *)
Theorem handle_sets_flag_only_on_replay (w : World B) (e : QKeyEvent)
    (dry_run : bool) :
  ignore_next_key (self (snd (handle is_modifier_key e dry_run w))) = true ->
  (ignore_next_key (self w) = true /\ dry_run = true)
  \/ (ignore_next_key (self w) = false
      /\ dry_run = false
      /\ fst (handle is_modifier_key e dry_run w) = Returned ExactMatch
      /\ exists window,
           focus w = Some window
           /\ posted (snd (handle is_modifier_key e dry_run w))
              = posted w
                ++ replayed window (append_event (orig_sequence (self w)) e)).
Proof.
  intros Hflag.
  destruct (handle_cases w e dry_run)
    as [[_ E] | [(_ & _ & _ & _ & E)
                | [(Hmod & Hign & Hearly & window & Hf & E)
                  | (Hmod & Hign & Hdry & Hexact & cmdstr & count & Hb & E)]]];
    rewrite E in Hflag |- *.
  - cbn in Hflag |- *. left. now apply andb_true_iff in Hflag.
  - cbn in Hflag. discriminate.
  - cbn in Hflag |- *. right.
    apply returns_early_false in Hearly as (Hdry & _ & _).
    repeat split; auto. exists window. auto.
  - exfalso.
    match type of Hflag with
    | context [execute ?run ?fe ?c ?n ?w0] =>
        pose proof (execute_lifted_self runner_run fe c n w0) as Hself;
        destruct (execute run fe c n w0) as [[[]|x] w']
    end; cbn [snd self] in *; rewrite Hself in Hflag; discriminate.
Qed.

(** One call of [handle] appends at most one replayed chain, of two keys at
    least, to the queue, when the commands post nothing; a dry run appends
    none. *)
Lemma handle_posted_step (w : World B) (e : QKeyEvent) (dry_run : bool) :
  (forall cmdstr count v,
      env_posted (snd (runner_run cmdstr count v)) = env_posted v) ->
  exists rs : list (QWindow * KeySequence),
    posted (snd (handle is_modifier_key e dry_run w))
    = posted w ++ flat_map (fun r => replayed (fst r) (snd r)) rs
    /\ Forall (fun r => 2 <= List.length (snd r)) rs
    /\ List.length rs <= (if dry_run then 0 else 1).
Proof.
  intros Hquiet.
  destruct (handle_cases w e dry_run)
    as [[_ E] | [(_ & _ & _ & _ & E)
                | [(Hmod & Hign & Hearly & window & Hf & E)
                  | (Hmod & Hign & Hdry & Hexact & cmdstr & count & Hb & E)]]];
    rewrite E.
  - exists []. cbn. rewrite app_nil_r. repeat split; [constructor | lia].
  - exists []. cbn. rewrite app_nil_r. repeat split; [constructor | lia].
  - cbn [snd posted].
    apply returns_early_false in Hearly as (-> & Hbuf & _).
    exists [(window, append_event (orig_sequence (self w)) e)].
    cbn [flat_map fst snd]. rewrite app_nil_r. repeat split.
    + constructor; [|constructor]. cbn [snd]. rewrite append_event_length.
      destruct (orig_sequence (self w)); [contradiction | cbn; lia].
    + cbn. lia.
  - exists []. cbn [flat_map]. rewrite app_nil_r.
    split; [|split; [constructor | destruct dry_run; cbn; lia]].
    pose proof (handle_command_world
                  (mkParser (br_state (base_handle (base (self w)) e dry_run))
                     (committed (orig_sequence (self w))
                        (append_event (orig_sequence (self w)) e) dry_run
                        (base_handle (base (self w)) e dry_run)) false)
                  (env_of w) cmdstr count) as Hw.
    cbv zeta in Hw. unfold env_of in Hw at 1 2 3.
    cbn [env_focus env_posted env_errors] in Hw. rewrite Hw.
    cbn [snd posted]. now rewrite Hquiet.
Qed.

(** One call of [handle] makes the buffered sequence at most one key longer,
    and a dry run does not make it longer. *)
Lemma handle_orig_sequence_step (w : World B) (e : QKeyEvent)
    (dry_run : bool) :
  List.length (orig_sequence (self (snd (handle is_modifier_key e dry_run w))))
  <= List.length (orig_sequence (self w)) + (if dry_run then 0 else 1).
Proof.
  assert (Hkept : forall r : BaseResult B,
             List.length (committed (orig_sequence (self w))
                            (append_event (orig_sequence (self w)) e)
                            dry_run r)
             <= List.length (orig_sequence (self w))
                + (if dry_run then 0 else 1)).
  { intros r. unfold committed.
    destruct dry_run, (br_match r), (br_cleared r); cbn [negb andb
      SequenceMatch_eqb List.length]; rewrite ?append_event_length; lia. }
  destruct (is_modifier_key (ev_key e) || ignore_next_key (self w)) eqn:G.
  - rewrite handle_guarded by exact G. cbn [snd self orig_sequence]. lia.
  - apply orb_false_elim in G as [Hmod Hign].
    rewrite handle_delegated_orig_sequence by assumption. apply Hkept.
Qed.

(** [clear_keystring] run on a world. *)
Lemma clear_keystring_world (w : World B) :
  clear_keystring w
  = (Returned tt,
     mkWorld (mkParser (base_clear_keystring (base (self w))) []
                       (ignore_next_key (self w)))
             (focus w) (posted w) (errors w)).
Proof.
  destruct w as [[b s i] f q m]. run_M. destruct s; reflexivity.
Qed.

(** X6: with commands that post no events themselves, over any run of
    calls of [handle] and [clear_keystring] the event queue is only ever
    extended, and what is added is a series of replayed chains, each of at
    least two keys with press and release of every key, and at most one
    chain for each real call of [handle]. *)
Theorem run_ops_posts_whole_chains (ops : list Op) (w : World B) :
  (forall cmdstr count v,
      env_posted (snd (runner_run cmdstr count v)) = env_posted v) ->
  exists rs : list (QWindow * KeySequence),
    posted (run_ops is_modifier_key ops w)
    = posted w ++ flat_map (fun r => replayed (fst r) (snd r)) rs
    /\ Forall (fun r => 2 <= List.length (snd r)) rs
    /\ List.length rs <= real_handles ops.
Proof.
  intros Hquiet. revert w. induction ops as [|[c|] ops IH]; intros w.
  - exists []. cbn. rewrite app_nil_r. repeat split; [constructor | lia].
  - cbn [run_ops real_handles].
    destruct (handle_posted_step (with_focus (c_focus c) w) (c_event c)
                (c_dry_run c) Hquiet) as (rs1 & E1 & F1 & L1).
    destruct (IH (snd (handle is_modifier_key (c_event c) (c_dry_run c)
                         (with_focus (c_focus c) w))))
      as (rs2 & E2 & F2 & L2).
    exists (rs1 ++ rs2). rewrite E2, E1. cbn [with_focus posted].
    rewrite flat_map_app, app_assoc, length_app. repeat split.
    + apply Forall_app. auto.
    + lia.
  - cbn [run_ops real_handles]. rewrite clear_keystring_world. cbn [snd].
    destruct (IH (mkWorld
                    (mkParser (base_clear_keystring (base (self w))) []
                       (ignore_next_key (self w)))
                    (focus w) (posted w) (errors w)))
      as (rs & E & F & L).
    exists rs. rewrite E. cbn [posted]. auto.
Qed.

(** X7: over any run of calls of [handle] and [clear_keystring], the
    buffered original sequence grows by at most one key for each real call
    of [handle]; dry runs and [clear_keystring] never make it longer. *)
Theorem run_ops_orig_sequence_bound (ops : list Op) (w : World B) :
  List.length (orig_sequence (self (run_ops is_modifier_key ops w)))
  <= List.length (orig_sequence (self w)) + real_handles ops.
Proof.
  revert w. induction ops as [|[c|] ops IH]; intros w;
    cbn [run_ops real_handles].
  - lia.
  - etransitivity; [apply IH|].
    pose proof (handle_orig_sequence_step (with_focus (c_focus c) w)
                  (c_event c) (c_dry_run c)) as Hstep.
    cbn [with_focus self] in Hstep. lia.
  - etransitivity; [apply IH|].
    rewrite clear_keystring_world. cbn. lia.
Qed.

(** X8: with an inherited matcher that resets its chain on a real NoMatch,
    "when the flag is set the buffered original sequence is empty" is kept
    by every call of [handle] and [clear_keystring]: if it holds before a
    run of operations, it holds after it. *)
Theorem run_ops_flag_implies_empty (Hbase : base_resets_on_no_match)
    (ops : list Op) (w : World B) :
  (ignore_next_key (self w) = true -> orig_sequence (self w) = []) ->
  ignore_next_key (self (run_ops is_modifier_key ops w)) = true ->
  orig_sequence (self (run_ops is_modifier_key ops w)) = [].
Proof.
  revert w. induction ops as [|[c|] ops IH]; intros w Hinv;
    cbn [run_ops]; [exact Hinv | apply IH | apply IH].
  - destruct (handle_cases (with_focus (c_focus c) w) (c_event c)
                (c_dry_run c))
      as [[_ E] | [(_ & _ & _ & _ & E)
                  | [(_ & _ & Hearly & window & _ & E)
                    | (_ & _ & _ & _ & cmdstr & count & _ & E)]]];
      rewrite E.
    + cbn [snd self orig_sequence ignore_next_key with_focus].
      intros Hflag. apply andb_true_iff in Hflag as [Hflag _]. auto.
    + cbn [snd self orig_sequence ignore_next_key with_focus]. discriminate.
    + cbn [snd self orig_sequence ignore_next_key with_focus].
      intros _. apply returns_early_false in Hearly as (Hdry & _ & Hno).
      cbn [with_focus self] in Hdry, Hno. rewrite Hdry in *.
      unfold committed. rewrite Hno. cbn [negb andb SequenceMatch_eqb].
      now rewrite (Hbase _ _ Hno).
    + intros Hflag. exfalso.
      match type of Hflag with
      | context [execute ?run ?fe ?c ?n ?w0] =>
          pose proof (execute_lifted_self runner_run fe c n w0) as Hself;
          destruct (execute run fe c n w0) as [[[]|x] w']
      end; cbn [snd self] in *; rewrite Hself in Hflag; discriminate.
  - rewrite clear_keystring_world. reflexivity.
Qed.

(** X9: [clear_keystring] always returns, always runs the inherited
    [clear_keystring] on the matcher (also when the buffered sequence is
    already empty), and leaves the flag, the focus, the event queue and the
    messages as they were. *)
Theorem clear_keystring_frame (w : World B) :
  fst (clear_keystring w) = Returned tt
  /\ base (self (snd (clear_keystring w)))
     = base_clear_keystring (base (self w))
  /\ ignore_next_key (self (snd (clear_keystring w)))
     = ignore_next_key (self w)
  /\ focus (snd (clear_keystring w)) = focus w
  /\ posted (snd (clear_keystring w)) = posted w
  /\ errors (snd (clear_keystring w)) = errors w.
Proof.
  rewrite clear_keystring_world. cbn. repeat split.
Qed.

(** X10: the first key handled after [clear_keystring] is never replayed:
    with the flag unset, a real call with a non-modifier key on which the
    inherited matcher (run on its cleared state) says NoMatch or
    PartialMatch returns that verdict and posts nothing, also when the
    verdict is NoMatch and a window has focus. *)
Theorem handle_after_clear_keystring (w : World B) (e : QKeyEvent) :
  is_modifier_key (ev_key e) = false ->
  ignore_next_key (self w) = false ->
  br_match (base_handle (base_clear_keystring (base (self w))) e false)
  <> ExactMatch ->
  fst (handle is_modifier_key e false (snd (clear_keystring w)))
  = Returned
      (br_match (base_handle (base_clear_keystring (base (self w))) e false))
  /\ posted (snd (handle is_modifier_key e false (snd (clear_keystring w))))
     = posted w.
Proof.
  intros Hmod Hign Hne. rewrite clear_keystring_world. cbn [snd].
  pose proof (handle_delegated is_modifier_key
                (mkWorld
                   (mkParser (base_clear_keystring (base (self w))) []
                      (ignore_next_key (self w)))
                   (focus w) (posted w) (errors w))
                e false Hmod Hign
                (bound_command_none _ e (or_intror Hne))) as E.
  cbv zeta in E. rewrite E. clear E. cbn. auto.
Qed.

(** X11: whatever the runner does, [execute] does not raise a command
    error. *)
Theorem execute_never_raises_command_error (cmdstr : string)
    (count : option Z) (w : World B) :
  raises_command_error
    (fst (execute commandrunner_run format_exc cmdstr count w))
  = false.
Proof.
  unfold execute, try_except.
  destruct (commandrunner_run cmdstr count w) as [[[]|[text|cls text]] w'];
    reflexivity.
Qed.

(** X12: [execute] itself touches only the messages: the parser, the focus
    and the event queue are those the runner left, and the messages are
    those the runner left followed by one entry (the error's text and the
    trace) when the runner raised a command error, and by nothing
    otherwise. *)
Theorem execute_frame (cmdstr : string) (count : option Z) (w : World B) :
  let ran := commandrunner_run cmdstr count w in
  let done := execute commandrunner_run format_exc cmdstr count w in
  self (snd done) = self (snd ran)
  /\ focus (snd done) = focus (snd ran)
  /\ posted (snd done) = posted (snd ran)
  /\ errors (snd done)
     = errors (snd ran)
       ++ match fst ran with
          | Raised (CmdExcError text) =>
              [(text, format_exc (CmdExcError text))]
          | _ => []
          end.
Proof.
  intros ran done. subst ran done. unfold execute, try_except.
  destruct (commandrunner_run cmdstr count w) as [[[]|[text|cls text]] w'];
    cbn; rewrite ?app_nil_r; auto.
Qed.

(** X13: a newly constructed parser has an empty buffer and the flag unset,
    so its first non-modifier key goes to the inherited matcher (on the
    state the constructors and the configuration give) and is never
    replayed: in a dry run, or when the verdict is NoMatch or PartialMatch,
    the verdict is returned as it is, nothing is posted and the flag stays
    unset. *)
Theorem handle_on_new_parser (base_init : nat -> B)
    (read_config : string -> B -> B) (win_id : nat) (mode : string)
    (f : option QWindow) (q : list (QWindow * QKeyEvent))
    (m : list (string * string)) (e : QKeyEvent) (dry_run : bool) :
  is_modifier_key (ev_key e) = false ->
  dry_run = true
  \/ br_match (base_handle (read_config mode (base_init win_id)) e dry_run)
     <> ExactMatch ->
  let w := mkWorld (fst (init base_init read_config win_id mode)) f q m in
  fst (handle is_modifier_key e dry_run w)
  = Returned
      (br_match (base_handle (read_config mode (base_init win_id)) e dry_run))
  /\ posted (snd (handle is_modifier_key e dry_run w)) = q
  /\ ignore_next_key (self (snd (handle is_modifier_key e dry_run w))) = false.
Proof.
  intros Hmod Hcase w.
  pose proof (handle_delegated is_modifier_key w e dry_run Hmod eq_refl
                (bound_command_none _ e Hcase)) as E.
  cbv zeta in E. rewrite E. clear E. subst w.
  unfold returns_early, init. cbn. rewrite orb_true_r. cbn. auto.
Qed.

(** X14: where the results of [handle] come from.  It returns PartialMatch
    exactly when the call reached the inherited matcher and that was its
    verdict; it returns ExactMatch only when the call reached the matcher
    and either that was its verdict or the verdict was NoMatch and the real
    call replayed the chain, extending the event queue. *)
Theorem handle_result_origin (w : World B) (e : QKeyEvent) (dry_run : bool) :
  let r := base_handle (base (self w)) e dry_run in
  let reached :=
    is_modifier_key (ev_key e) = false /\ ignore_next_key (self w) = false in
  (fst (handle is_modifier_key e dry_run w) = Returned PartialMatch
   <-> reached /\ br_match r = PartialMatch)
  /\ (fst (handle is_modifier_key e dry_run w) = Returned ExactMatch ->
      reached
      /\ (br_match r = ExactMatch
          \/ (br_match r = NoMatch
              /\ dry_run = false
              /\ posted (snd (handle is_modifier_key e dry_run w))
                 <> posted w))).
Proof.
  intros r reached. subst r reached.
  destruct (handle_cases w e dry_run)
    as [[G E] | [(Hmod & Hign & _ & _ & E)
                | [(Hmod & Hign & Hearly & window & Hf & E)
                  | (Hmod & Hign & Hdry & Hexact & cmdstr & count & Hb & E)]]];
    rewrite E.
  - cbn [fst snd posted]. split; [split|]; try discriminate.
    intros [[Hmod Hign] _]. rewrite Hmod, Hign in G. discriminate.
  - cbn [fst snd posted]. split; [split|].
    + intros Hret. injection Hret as Hret. auto.
    + intros [_ Hm]. now rewrite Hm.
    + intros Hret. injection Hret as Hret. auto.
  - cbn [fst snd posted].
    apply returns_early_false in Hearly as (Hdry & _ & Hno).
    split; [split|].
    + discriminate.
    + intros [_ Hm]. congruence.
    + intros _. split; [auto|]. right. repeat split; auto.
      apply app_grows, replayed_of_scratch_nonempty.
  - match goal with
    | |- context [execute ?run ?fe ?c ?n ?w0] =>
        destruct (execute run fe c n w0) as [[[]|x] w']
    end; cbn [fst snd]; (split; [split|]); try discriminate;
      try (intros [_ Hm]; congruence); auto.
Qed.

(** X15: a real call that reaches the inherited matcher and on which the
    verdict is ExactMatch runs the bound command once through [execute],
    after the matcher's own changes, and replays nothing.  The parser is
    left with the matcher's state, the buffer the matcher left (empty if it
    cleared the key string) and the flag unset; the focus and the event
    queue are those the command left; a command error adds one message and
    the call still returns ExactMatch; any other exception of the command
    comes out of [handle]. *)
Theorem handle_runs_bound_command (w : World B) (e : QKeyEvent)
    (cmdstr : string) (count : option Z) :
  is_modifier_key (ev_key e) = false ->
  ignore_next_key (self w) = false ->
  br_match (base_handle (base (self w)) e false) = ExactMatch ->
  base_binding (base (self w)) e = Some (cmdstr, count) ->
  let r := base_handle (base (self w)) e false in
  let ran := runner_run cmdstr count (env_of w) in
  handle is_modifier_key e false w
  = (match fst ran with
     | Raised (OtherException cls text) => Raised (OtherException cls text)
     | _ => Returned ExactMatch
     end,
     mkWorld
       (mkParser (br_state r)
          (if br_cleared r then [] else orig_sequence (self w)) false)
       (env_focus (snd ran)) (env_posted (snd ran))
       (env_errors (snd ran)
        ++ match fst ran with
           | Raised (CmdExcError text) =>
               [(text, runner_format_exc (CmdExcError text))]
           | _ => []
           end)).
Proof.
  intros Hmod Hign Hexact Hbinding r ran. subst r ran.
  assert (Hcmd : bound_command (base (self w)) e false = Some (cmdstr, count)).
  { unfold bound_command. rewrite Hexact. exact Hbinding. }
  pose proof (handle_executes is_modifier_key w e _ Hmod Hign Hcmd) as E.
  cbv zeta in E. rewrite E. clear E.
  unfold committed. rewrite Hexact. cbn [negb andb SequenceMatch_eqb].
  pose proof (handle_command_world
                (mkParser (br_state (base_handle (base (self w)) e false))
                   (if br_cleared (base_handle (base (self w)) e false)
                    then [] else orig_sequence (self w)) false)
                (env_of w) cmdstr count) as Hw.
  cbv zeta in Hw. unfold env_of in Hw at 1 2 3.
  cbn [env_focus env_posted env_errors] in Hw. exact Hw.
Qed.

End Further.

(** ** The further properties on concrete chains *)

Lemma handle_replays_whole_chain_witness :
  fst (handle Sample.is_modifier_key (Sample.press Chord.Key_L) false
         (Chord.after_jk (Some Sample.window)))
  = Returned ExactMatch
  /\ posted (snd (handle Sample.is_modifier_key (Sample.press Chord.Key_L)
                    false (Chord.after_jk (Some Sample.window))))
     = [(Sample.window, Sample.press Sample.Key_J);
        (Sample.window, Sample.release Sample.Key_J);
        (Sample.window, Sample.press Sample.Key_K);
        (Sample.window, Sample.release Sample.Key_K);
        (Sample.window, Sample.press Chord.Key_L);
        (Sample.window, Sample.release Chord.Key_L)]
  /\ ignore_next_key
       (self (snd (handle Sample.is_modifier_key (Sample.press Chord.Key_L)
                     false (Chord.after_jk (Some Sample.window)))))
     = true
  /\ List.length
       (posted (snd (handle Sample.is_modifier_key (Sample.press Chord.Key_L)
                       false (Chord.after_jk (Some Sample.window)))))
     = 6%nat.
Proof.
  refine (handle_replays_whole_chain Sample.is_modifier_key
            (Chord.after_jk (Some Sample.window)) (Sample.press Chord.Key_L)
            (window := Sample.window) _ _ _ _ _);
    try reflexivity.
  vm_compute. discriminate.
Defined.

Lemma handle_passes_verdict_through_witness :
  (fst (handle Sample.is_modifier_key (Sample.press Sample.Key_K) true
          (Sample.after_j (Some Sample.window)))
   = Returned NoMatch
   /\ posted (snd (handle Sample.is_modifier_key (Sample.press Sample.Key_K)
                     true (Sample.after_j (Some Sample.window))))
      = []
   /\ errors (snd (handle Sample.is_modifier_key (Sample.press Sample.Key_K)
                     true (Sample.after_j (Some Sample.window))))
      = []
   /\ ignore_next_key
        (self (snd (handle Sample.is_modifier_key (Sample.press Sample.Key_K)
                      true (Sample.after_j (Some Sample.window)))))
      = false)
  /\ fst (handle Sample.is_modifier_key (Sample.press Sample.Key_J) false
            (Sample.fresh (Some Sample.window)))
     = Returned PartialMatch.
Proof.
  split.
  - refine (handle_passes_verdict_through Sample.is_modifier_key
              (Sample.after_j (Some Sample.window))
              (Sample.press Sample.Key_K) (dry_run := true) _ _ _);
      try reflexivity.
    left. reflexivity.
  - refine (proj1 (handle_passes_verdict_through Sample.is_modifier_key
                     (Sample.fresh (Some Sample.window))
                     (Sample.press Sample.Key_J) (dry_run := false) _ _ _));
      try reflexivity.
    right. reflexivity.
Defined.

Lemma handle_commits_partial_chain_witness :
  orig_sequence
    (self (snd (handle Sample.is_modifier_key (Sample.press Sample.Key_K)
                  false
                  (Chord.after_j None))))
  = [Sample.info Sample.Key_J; Sample.info Sample.Key_K]
  /\ orig_sequence
       (self (snd (handle Sample.is_modifier_key (Sample.press Sample.Key_K)
                     false (Sample.after_j None))))
     = [].
Proof.
  split.
  - refine (proj1 (handle_commits_partial_chain Sample.is_modifier_key
                     (Chord.after_j None)
                     (Sample.press Sample.Key_K) _ _) _);
      reflexivity.
  - refine (proj2 (handle_commits_partial_chain Sample.is_modifier_key
                     (Sample.after_j None) (Sample.press Sample.Key_K) _ _) _);
      try reflexivity.
    vm_compute. discriminate.
Defined.

Lemma handle_posts_only_on_replay_witness :
  (br_match
     (base_handle (base (self (Sample.after_j (Some Sample.window))))
        (Sample.press Sample.Key_K) false)
   = NoMatch
   \/ br_match
        (base_handle (base (self (Sample.after_j (Some Sample.window))))
           (Sample.press Sample.Key_K) false)
      = ExactMatch)
  /\ (br_match
        (base_handle (base (self Chord.keys_fresh))
           (Sample.press Sample.Key_J) false)
      = NoMatch
      \/ br_match
           (base_handle (base (self Chord.keys_fresh))
              (Sample.press Sample.Key_J) false)
         = ExactMatch).
Proof.
  assert (Hreplay :
            posted (snd (handle Sample.is_modifier_key
                           (Sample.press Sample.Key_K) false
                           (Sample.after_j (Some Sample.window))))
            <> posted (Sample.after_j (Some Sample.window)))
    by (vm_compute; discriminate).
  assert (Hcommand :
            posted (snd (handle Sample.is_modifier_key
                           (Sample.press Sample.Key_J) false
                           Chord.keys_fresh))
            <> posted Chord.keys_fresh)
    by (vm_compute; discriminate).
  split.
  - destruct (handle_posts_only_on_replay Sample.is_modifier_key
                (Sample.after_j (Some Sample.window))
                (Sample.press Sample.Key_K) false Hreplay)
      as (_ & _ & _ & [(Hno & _) | (Hexact & _)]); [left | right]; assumption.
  - destruct (handle_posts_only_on_replay Sample.is_modifier_key
                Chord.keys_fresh (Sample.press Sample.Key_J) false Hcommand)
      as (_ & _ & _ & [(Hno & _) | (Hexact & _)]); [left | right]; assumption.
Defined.

Lemma handle_sets_flag_only_on_replay_witness :
  (ignore_next_key (self (Sample.after_j (Some Sample.window))) = true
   /\ false = true)
  \/ (ignore_next_key (self (Sample.after_j (Some Sample.window))) = false
      /\ false = false
      /\ fst (handle Sample.is_modifier_key (Sample.press Sample.Key_K) false
                (Sample.after_j (Some Sample.window)))
         = Returned ExactMatch
      /\ exists window,
           focus (Sample.after_j (Some Sample.window)) = Some window
           /\ posted (snd (handle Sample.is_modifier_key
                             (Sample.press Sample.Key_K) false
                             (Sample.after_j (Some Sample.window))))
              = posted (Sample.after_j (Some Sample.window))
                ++ replayed window
                     (append_event
                        (orig_sequence
                           (self (Sample.after_j (Some Sample.window))))
                        (Sample.press Sample.Key_K))).
Proof.
  apply (handle_sets_flag_only_on_replay Sample.is_modifier_key
           (Sample.after_j (Some Sample.window))
           (Sample.press Sample.Key_K) false).
  reflexivity.
Defined.

Lemma run_ops_flag_implies_empty_witness :
  ignore_next_key
    (self (run_ops Sample.is_modifier_key Chord.typed_jk_then_probe
             (Sample.fresh None)))
  = true
  /\ orig_sequence
       (self (run_ops Sample.is_modifier_key Chord.typed_jk_then_probe
                (Sample.fresh None)))
     = [].
Proof.
  split; [reflexivity|].
  refine (run_ops_flag_implies_empty Sample.is_modifier_key
            chain_matcher_resets_on_no_match Chord.typed_jk_then_probe
            (Sample.fresh None) _ _).
  - cbn. discriminate.
  - reflexivity.
Defined.

Lemma handle_after_clear_keystring_witness :
  fst (handle Sample.is_modifier_key (Sample.press Sample.Key_K) false
         (snd (clear_keystring (Sample.after_j (Some Sample.window)))))
  = Returned NoMatch
  /\ posted
       (snd (handle Sample.is_modifier_key (Sample.press Sample.Key_K) false
               (snd (clear_keystring (Sample.after_j (Some Sample.window))))))
     = [].
Proof.
  refine (handle_after_clear_keystring Sample.is_modifier_key
            (Sample.after_j (Some Sample.window))
            (Sample.press Sample.Key_K) _ _ _);
    try reflexivity.
  vm_compute. discriminate.
Defined.

Lemma handle_on_new_parser_witness :
  fst (handle Sample.is_modifier_key (Sample.press Sample.Key_J) false
         (mkWorld
            (fst (init Chord.base_init Chord.read_config 0 "insert"))
            (Some Sample.window) [] []))
  = Returned PartialMatch
  /\ fst (handle Sample.is_modifier_key (Sample.press Sample.Key_J) false
            (mkWorld
               (fst (init Chord.base_init Chord.read_config 0 "passthrough"))
               (Some Sample.window) [] []))
     = Returned NoMatch.
Proof.
  split.
  - refine (proj1 (handle_on_new_parser Sample.is_modifier_key
                     Chord.base_init Chord.read_config 0 "insert"
                     (Some Sample.window) [] []
                     (Sample.press Sample.Key_J) (dry_run := false) _ _)).
    + reflexivity.
    + right. vm_compute. discriminate.
  - refine (proj1 (handle_on_new_parser Sample.is_modifier_key
                     Chord.base_init Chord.read_config 0 "passthrough"
                     (Some Sample.window) [] []
                     (Sample.press Sample.Key_J) (dry_run := false) _ _)).
    + reflexivity.
    + right. vm_compute. discriminate.
Defined.

Lemma handle_result_origin_witness :
  (Sample.is_modifier_key (ev_key (Sample.press Sample.Key_J)) = false
   /\ ignore_next_key (self (Sample.fresh None)) = false)
  /\ br_match
       (base_handle (base (self (Sample.fresh None)))
          (Sample.press Sample.Key_J) false)
     = PartialMatch.
Proof.
  apply (proj1 (handle_result_origin Sample.is_modifier_key
                  (Sample.fresh None) (Sample.press Sample.Key_J) false)).
  reflexivity.
Defined.

Lemma run_ops_posts_whole_chains_witness :
  exists rs : list (QWindow * KeySequence),
    posted (@run_ops _ _ Chord.quiet_runner Sample.is_modifier_key
              Chord.typed_jk_then_probe (Sample.fresh None))
    = posted (Sample.fresh None)
      ++ flat_map (fun r => replayed (fst r) (snd r)) rs
    /\ Forall (fun r => 2 <= List.length (snd r)) rs
    /\ List.length rs <= real_handles Chord.typed_jk_then_probe.
Proof.
  apply (@run_ops_posts_whole_chains _ _ Chord.quiet_runner
           Sample.is_modifier_key Chord.typed_jk_then_probe
           (Sample.fresh None)).
  intros cmdstr count v. cbn. unfold Chord.quiet_run.
  destruct (String.eqb cmdstr "fail"); reflexivity.
Defined.

Lemma handle_runs_bound_command_witness :
  handle Sample.is_modifier_key (Sample.press Sample.Key_K) false
    Chord.keys_fresh
  = (Returned ExactMatch,
     mkWorld
       (mkParser
          (ChainMatcher.mkState (ChainMatcher.bindings Chord.keys_bound) [])
          [] false)
       (Some Sample.window) [(Sample.window, Sample.press Sample.Key_J)]
       [("fail: no such command"%string,
         Sample.format_exc (CmdExcError "fail: no such command"))])
  /\ fst (handle Sample.is_modifier_key (Sample.press Chord.Key_L) false
            Chord.keys_fresh)
     = Raised (OtherException "RuntimeError" "runner broke").
Proof.
  split.
  - refine (handle_runs_bound_command Sample.is_modifier_key
              Chord.keys_fresh (Sample.press Sample.Key_K)
              (cmdstr := "fail"%string) (count := None) _ _ _ _);
      reflexivity.
  - refine (f_equal fst
              (handle_runs_bound_command Sample.is_modifier_key
                 Chord.keys_fresh (Sample.press Chord.Key_L)
                 (cmdstr := "crash"%string) (count := None) _ _ _ _));
      reflexivity.
Defined.
